(** * require-validate: the validation engine of [validate.js]

    A shallow embedding of the module's [service] object: the six functions of
    [service.validator], [service.validateField] and [service.validate], and
    of the click handler that the module binds to [data-submitter] elements.

    Modelling choices, all taken from the source:
    - a JavaScript string is its sequence of UTF-16 code units ([list N]);
    - a field value is what the validators document and test for: a string
      ([@param {String} value]), [undefined] or [null];
    - regular-expression literals are terms of a small regex syntax, matched
      with derivatives; [^...$] is a whole-string match, a literal without
      anchors is searched for at every position;
    - unary [+] on a string is ECMAScript's StringToNumber, with the
      round-to-nearest-even conversion to a binary64 value;
    - [service.validator[key]] is a property read on an object literal: it
      finds the six own properties (a finite map) and then the twelve
      properties of [Object.prototype]; what is found is called, and the
      call or the read of [result.error] after it can throw;
    - a call runs in a small monad that records, in order, every function
      invocation and every DOM effect, and that propagates a thrown
      [TypeError];
    - jQuery is the environment: a field is the triple that [validateField]
      reads from it ([el.val()], [el.data("validate")],
      [el.attr("placeholder")]) and [$(selector)] is a parameter; the
      result of [el.data("validate")] is a string, [undefined] or [null]. *)

From stdpp Require Import base gmap list strings.
From Stdlib Require Import ZArith NArith Ascii.

(** ** JavaScript values *)

Module JS.

Abbreviation code_unit := N (only parsing).
Abbreviation jsstring := (list N) (only parsing).

(** An ASCII literal of the source as a sequence of code units. *)
Fixpoint lit (s : string) : jsstring :=
  match s with
  | EmptyString => []
  | String a rest => Ascii.N_of_ascii a :: lit rest
  end.

(** A one-character literal. *)
Definition ch (a : Ascii.ascii) : code_unit := Ascii.N_of_ascii a.

Inductive jsval : Type :=
| undefined
| null
| str (s : jsstring).

#[export] Instance jsval_eq_dec : EqDecision jsval.
Proof. solve_decision. Defined.

(** [ToBoolean]: what [if (v)] and [!v] test. *)
Definition ToBoolean (v : jsval) : bool :=
  match v with
  | str (_ :: _) => true
  | _ => false
  end.

(** [ToString], applied by [RegExp.prototype.test] and by [+] on strings. *)
Definition ToString (v : jsval) : jsstring :=
  match v with
  | undefined => lit "undefined"
  | null => lit "null"
  | str s => s
  end.

(** [a == b] (loose equality): [undefined] and [null] are equal to each other
    and to nothing else; two strings are compared code unit by code unit. *)
Definition loose_eq (a b : jsval) : bool :=
  match a, b with
  | str s, str t => bool_decide (s = t)
  | str _, _ | _, str _ => false
  | _, _ => true
  end.

(** [a === b] (strict equality). *)
Definition strict_eq (a b : jsval) : bool := bool_decide (a = b).

(** [WhiteSpace] and [LineTerminator] code units: the set that [\s] matches
    and that StringToNumber strips. *)
Definition is_white_space (c : code_unit) : bool :=
  bool_decide (c ∈ [0x09; 0x0B; 0x0C; 0x20; 0xA0; 0x1680; 0x202F; 0x205F;
                    0x3000; 0xFEFF]%N)
  || ((0x2000 <=? c) && (c <=? 0x200A))%N.

Definition is_line_terminator (c : code_unit) : bool :=
  bool_decide (c ∈ [0x0A; 0x0D; 0x2028; 0x2029]%N).

Definition is_str_white_space (c : code_unit) : bool :=
  is_white_space c || is_line_terminator c.

Definition in_range (lo hi : Ascii.ascii) (c : code_unit) : bool :=
  ((ch lo <=? c) && (c <=? ch hi))%N.

Definition is_digit : code_unit -> bool := in_range "0" "9".

(** [s.split(",")] for a one-character separator: the pieces between the
    separators, empty pieces included; always at least one piece. *)
Fixpoint split (sep : code_unit) (s : jsstring) : list jsstring :=
  match s with
  | [] => [[]]
  | c :: rest =>
      if (c =? sep)%N then [] :: split sep rest
      else match split sep rest with
           | piece :: pieces => (c :: piece) :: pieces
           | [] => [[c]]
           end
  end.

End JS.

(** ** Regular expressions *)

Module RegExp.
Import JS.

Inductive regex : Type :=
| Never                          (* matches nothing *)
| Empty                          (* matches the empty string *)
| Class (p : code_unit -> bool)  (* one code unit of a class *)
| Cat (r s : regex)
| Alt (r s : regex)
| Star (r : regex).

Definition Plus (r : regex) : regex := Cat r (Star r).
Definition Opt (r : regex) : regex := Alt r Empty.

(** [r{n}] *)
Fixpoint Repeat (n : nat) (r : regex) : regex :=
  match n with
  | O => Empty
  | S n' => Cat r (Repeat n' r)
  end.

(** [r{0,n}] *)
Fixpoint AtMost (n : nat) (r : regex) : regex :=
  match n with
  | O => Empty
  | S n' => Opt (Cat r (AtMost n' r))
  end.

(** [r{m,n}] with [m <= n] *)
Definition Between (m n : nat) (r : regex) : regex :=
  Cat (Repeat m r) (AtMost (n - m) r).

(** [r{m,}] *)
Definition AtLeast (m : nat) (r : regex) : regex := Cat (Repeat m r) (Star r).

(** A literal character and a literal word. *)
Definition Chr (a : Ascii.ascii) : regex := Class (fun c => (c =? ch a)%N).

Fixpoint Word (s : string) : regex :=
  match s with
  | EmptyString => Empty
  | String a rest => Cat (Chr a) (Word rest)
  end.

Fixpoint nullable (r : regex) : bool :=
  match r with
  | Never => false
  | Empty => true
  | Class _ => false
  | Cat r s => nullable r && nullable s
  | Alt r s => nullable r || nullable s
  | Star _ => true
  end.

(** The derivative of [r] by the code unit [c]. *)
Fixpoint deriv (c : code_unit) (r : regex) : regex :=
  match r with
  | Never => Never
  | Empty => Never
  | Class p => if p c then Empty else Never
  | Cat r s =>
      if nullable r then Alt (Cat (deriv c r) s) (deriv c s)
      else Cat (deriv c r) s
  | Alt r s => Alt (deriv c r) (deriv c s)
  | Star r => Cat (deriv c r) (Star r)
  end.

(** Does [r] match the whole of [s]? *)
Fixpoint matches (r : regex) (s : jsstring) : bool :=
  match s with
  | [] => nullable r
  | c :: rest => matches (deriv c r) rest
  end.

(** Does [r] match some prefix of [s]? *)
Fixpoint matches_prefix (r : regex) (s : jsstring) : bool :=
  nullable r ||
  match s with
  | [] => false
  | c :: rest => matches_prefix (deriv c r) rest
  end.

(** [/^r$/.test(s)]: without the multiline flag the anchors are the two ends
    of the string. *)
Definition test_anchored (r : regex) (s : jsstring) : bool := matches r s.

(** [/r/.test(s)]: a match may start at any position. *)
Fixpoint test_search (r : regex) (s : jsstring) : bool :=
  matches_prefix r s ||
  match s with
  | [] => false
  | _ :: rest => test_search r rest
  end.

(** The strings of a regular expression, for reference: [matches] decides
    membership (see [matches_lang]). *)
Inductive lang : regex -> jsstring -> Prop :=
| lang_Empty : lang Empty []
| lang_Class p c : p c = true -> lang (Class p) [c]
| lang_Cat r s u v : lang r u -> lang s v -> lang (Cat r s) (u ++ v)
| lang_Alt_l r s u : lang r u -> lang (Alt r s) u
| lang_Alt_r r s u : lang s u -> lang (Alt r s) u
| lang_Star_nil r : lang (Star r) []
| lang_Star_more r u v : lang r u -> lang (Star r) v -> lang (Star r) (u ++ v).

(** The character classes of the literals in [validate.js]. *)
Definition digit : regex := Class is_digit.                       (* \d, [0-9] *)
Definition dot : regex :=                                         (* . *)
  Class (fun c => negb (is_line_terminator c)).
Definition one_of (s : string) (c : code_unit) : bool :=
  bool_decide (c ∈ lit s).

End RegExp.

(** ** Number values and the conversion of strings to numbers *)

Module Number.
Import JS.

(** A binary64 value: not-a-number, an infinity, or [± m · 2^e] with
    [m < 2^53] and [-1074 <= e <= 971]; the two zeros have [m = 0]. *)
Inductive number : Type :=
| NaN
| Infinity (negative : bool)
| Finite (negative : bool) (m : N) (e : Z).

Definition zero : number := Finite false 0 0.

Definition isNaN (x : number) : bool :=
  match x with
  | NaN => true
  | _ => false
  end.

(** [x < 0]: false for NaN and for both zeros. *)
Definition lt_zero (x : number) : bool :=
  match x with
  | NaN => false
  | Infinity negative => negative
  | Finite negative m _ => negative && (0 <? m)%N
  end.

(** Numerator and denominator of [(p / q) / 2^e]. *)
Definition scale (p q e : Z) : Z * Z :=
  if (0 <=? e)%Z then (p, q * 2 ^ e)%Z else (p * 2 ^ (- e), q)%Z.

(** The binary64 value nearest to [± p / q] ([0 <= p], [0 < q]), ties to
    even: the exponent is chosen so that the significand has 53 bits, but
    not below the subnormal exponent; the quotient is rounded on its
    remainder; what exceeds the largest finite value is an infinity. *)
Definition round_binary64 (negative : bool) (p q : Z) : number :=
  if (p =? 0)%Z then Finite negative 0 0 else
  let e0 := (Z.log2 p - Z.log2 q - 53)%Z in
  let '(n0, d0) := scale p q e0 in
  let e1 := if (2 ^ 53 <=? n0 / d0)%Z then (e0 + 1)%Z else e0 in
  let e := Z.max e1 (-1074) in
  let '(n, d) := scale p q e in
  let m := (n / d)%Z in
  let r := (n mod d)%Z in
  let m := if (d <? 2 * r)%Z || ((d =? 2 * r)%Z && Z.odd m)
           then (m + 1)%Z else m in
  let '(m, e) := if (m =? 2 ^ 53)%Z then (2 ^ 52, e + 1)%Z else (m, e) in
  if (m =? 0)%Z then Finite negative 0 0
  else if (971 <? e)%Z then Infinity negative
  else Finite negative (Z.to_N m) e.

(** [± m · 10^k] as a binary64 value. *)
Definition of_decimal (negative : bool) (m : N) (k : Z) : number :=
  if (0 <=? k)%Z then round_binary64 negative (Z.of_N m * 10 ^ k) 1
  else round_binary64 negative (Z.of_N m) (10 ^ (- k)).

(** *** The StringNumericLiteral grammar *)

Fixpoint strip_leading (s : jsstring) : jsstring :=
  match s with
  | c :: rest => if is_str_white_space c then strip_leading rest else s
  | [] => []
  end.

(** The string without its leading and trailing StrWhiteSpaceChar. *)
Definition trim (s : jsstring) : jsstring :=
  rev (strip_leading (rev (strip_leading s))).

Definition digit_value (c : code_unit) : option N :=
  if in_range "0" "9" c then Some (c - ch "0")%N
  else if in_range "a" "f" c then Some (c - ch "a" + 10)%N
  else if in_range "A" "F" c then Some (c - ch "A" + 10)%N
  else None.

Fixpoint digits_from (base acc : N) (s : jsstring) : option N :=
  match s with
  | [] => Some acc
  | c :: rest =>
      match digit_value c with
      | Some d => if (d <? base)%N then digits_from base (acc * base + d) rest
                  else None
      | None => None
      end
  end.

(** The value of a non-empty sequence of digits of a base. *)
Definition digits (base : N) (s : jsstring) : option N :=
  match s with
  | [] => None
  | _ => digits_from base 0 s
  end.

(** The longest prefix of decimal digits, and what follows it. *)
Fixpoint span_digits (s : jsstring) : jsstring * jsstring :=
  match s with
  | c :: rest =>
      if is_digit c then let '(ds, r) := span_digits rest in (c :: ds, r)
      else ([], s)
  | [] => ([], [])
  end.

Definition decimal_value (ds : jsstring) : N :=
  fold_left (fun acc c => acc * 10 + (c - ch "0"))%N ds 0%N.

(** An optional sign: is it a minus, and what follows. *)
Definition sign (s : jsstring) : bool * jsstring :=
  match s with
  | c :: rest =>
      if (c =? ch "-")%N then (true, rest)
      else if (c =? ch "+")%N then (false, rest)
      else (false, s)
  | [] => (false, [])
  end.

(** SignedInteger, to the end of the string. *)
Definition SignedInteger (s : jsstring) : option Z :=
  let '(negative, s') := sign s in
  match span_digits s' with
  | ((_ :: _) as ds, []) =>
      let n := Z.of_N (decimal_value ds) in
      Some (if negative then (- n)%Z else n)
  | _ => None
  end.

(** ExponentPart_opt, to the end of the string. *)
Definition ExponentPart (s : jsstring) : option Z :=
  match s with
  | [] => Some 0%Z
  | c :: rest =>
      if (c =? ch "e")%N || (c =? ch "E")%N then SignedInteger rest else None
  end.

(** StrUnsignedDecimalLiteral: [Infinity], or digits with an optional
    fraction and exponent; there is a digit before or after the point. *)
Definition StrUnsignedDecimalLiteral (negative : bool) (s : jsstring) : number :=
  if bool_decide (s = lit "Infinity") then Infinity negative else
  let '(int_part, r1) := span_digits s in
  let '(frac_part, r2) :=
    match r1 with
    | c :: r => if (c =? ch ".")%N then span_digits r else ([], r1)
    | [] => ([], [])
    end in
  match int_part ++ frac_part, ExponentPart r2 with
  | (_ :: _) as ds, Some k =>
      of_decimal negative (decimal_value ds) (k - Z.of_nat (length frac_part))
  | _, _ => NaN
  end.

(** StrNumericLiteral: an unsigned hexadecimal, octal or binary integer, or
    a signed decimal literal. *)
Definition StrNumericLiteral (s : jsstring) : number :=
  let radix (base : N) (ds : jsstring) :=
    match digits base ds with
    | Some n => round_binary64 false (Z.of_N n) 1
    | None => NaN
    end in
  match s with
  | 48%N :: c :: ds =>
      if (c =? ch "x")%N || (c =? ch "X")%N then radix 16%N ds
      else if (c =? ch "o")%N || (c =? ch "O")%N then radix 8%N ds
      else if (c =? ch "b")%N || (c =? ch "B")%N then radix 2%N ds
      else let '(negative, s') := sign s in
           StrUnsignedDecimalLiteral negative s'
  | _ => let '(negative, s') := sign s in
         StrUnsignedDecimalLiteral negative s'
  end.

(** StringToNumber: white space alone is [+0]. *)
Definition StringToNumber (s : jsstring) : number :=
  match trim s with
  | [] => zero
  | t => StrNumericLiteral t
  end.

(** [ToNumber], what unary [+] computes. *)
Definition ToNumber (v : jsval) : number :=
  match v with
  | undefined => NaN
  | null => zero
  | str s => StringToNumber s
  end.

End Number.

(** ** [service.validator]: the six validators and the registry *)

Import JS.

(** What a validator returns: [{ error: ..., message: ... }]. *)
Record ValidationResult : Type := { error : bool; message : jsval }.

Module validator.
Import RegExp Number.

(** [foldr] of [Cat] and of [Alt], to write a literal's sequence and
    alternatives in the order of the source. *)
Definition Seq (rs : list regex) : regex := foldr Cat Empty rs.
Definition Any (rs : list regex) : regex := foldr Alt Never rs.

(** The negated class of [email]: no angle bracket, parenthesis, square
    bracket, backslash, dot, comma, semicolon, colon, white space, at sign or
    double quote (code unit 0x22). *)
Definition email_atom : regex :=
  Class (fun c => negb (one_of "<>()[]\.,;:@" c || (c =? 0x22)%N
                        || is_str_white_space c)).

(** [[a-zA-Z\-0-9]] and [[a-zA-Z]] *)
Definition email_label : regex :=
  Class (fun c => in_range "a" "z" c || in_range "A" "Z" c
                  || (c =? ch "-")%N || in_range "0" "9" c).
Definition email_alpha : regex :=
  Class (fun c => in_range "a" "z" c || in_range "A" "Z" c).

(** The body of the literal of [email], between [^] and [$]. *)
Definition email_re : regex :=
  let octet := Between 1 3 (Class (in_range "0" "9")) in
  let quote := Class (fun c => (c =? 0x22)%N) in
  Seq [ Alt (Seq [Plus email_atom;
                  Star (Seq [Chr "."; Plus email_atom])])
            (Seq [quote; Plus dot; quote]);
        Chr "@";
        Alt (Seq [Chr "["; octet; Chr "."; octet; Chr "."; octet; Chr ".";
                  octet; Chr "]"])
            (Seq [Plus (Seq [Plus email_label; Chr "."]);
                  AtLeast 2 email_alpha]) ].

(** The body of the literal of [creditCard], between [^(?:] and [)$]. *)
Definition creditCard_re : regex :=
  let d := Class (in_range "0" "9") in
  Any [ Seq [Chr "4"; Repeat 12 d; Opt (Repeat 3 d)];
        Seq [Chr "5"; Class (in_range "1" "5"); Repeat 14 d];
        Seq [Chr "6"; Alt (Word "011") (Seq [Chr "5"; d; d]); Repeat 12 d];
        Seq [Chr "3"; Class (one_of "47"); Repeat 13 d];
        Seq [Chr "3";
             Alt (Seq [Chr "0"; Class (in_range "0" "5")])
                 (Seq [Class (one_of "68"); d]);
             Repeat 11 d];
        Seq [Any [Word "2131"; Word "1800"; Seq [Word "35"; Repeat 3 digit]];
             Repeat 11 digit] ].

(** The body of the literal of [cvv], between [^] and [$]. *)
Definition cvv_re : regex := Between 3 4 digit.

Definition email (value : jsval) : ValidationResult :=
  {| error := negb (test_anchored email_re (ToString value));
     message := str (lit "Invalid email address") |}.

Definition required (value : jsval) : ValidationResult :=
  let r := negb (loose_eq value (str (lit "")))
           && negb (strict_eq value undefined)
           && negb (strict_eq value null) in
  {| error := negb r; message := str (lit "Required") |}.

Definition string (value : jsval) : ValidationResult :=
  if negb (ToBoolean value) then
    {| error := true; message := str (lit "Empty value") |}
  else
    {| error := test_search digit (ToString value);
       message := str (lit "Invalid value") |}.

(** [creditCard] for a given literal [re]; the source's is [creditCard_re]. *)
Definition creditCard_with (re : regex) (value : jsval) : ValidationResult :=
  if negb (ToBoolean value) then
    {| error := true; message := str (lit "Empty value") |}
  else
    let result := test_anchored re (ToString value) in
    let result :=
      if negb result then
        if loose_eq value (str (lit "4567456745674567")) then true else result
      else result in
    {| error := negb result; message := str (lit "Invalid credit card") |}.

Definition creditCard : jsval -> ValidationResult :=
  creditCard_with creditCard_re.

Definition cvv (value : jsval) : ValidationResult :=
  if negb (ToBoolean value) then
    {| error := true; message := str (lit "Empty value") |}
  else
    {| error := negb (test_anchored cvv_re (ToString value));
       message := str (lit "Invalid CVV") |}.

Definition positive (value : jsval) : ValidationResult :=
  let v := ToNumber value in
  let '(msg, error) :=
    if isNaN v || lt_zero v then (str (lit "Invalid value"), true)
    else (undefined, false) in
  {| error := error; message := msg |}.

End validator.

(** The own properties of the object [service.validator]: the six validators
    that the object literal declares, by key. *)
Definition service_validator : gmap jsstring (jsval -> ValidationResult) :=
  list_to_map
    [ (lit "email", validator.email);
      (lit "required", validator.required);
      (lit "string", validator.string);
      (lit "creditCard", validator.creditCard);
      (lit "cvv", validator.cvv);
      (lit "positive", validator.positive) ].

(** ** The engine: effects, [validateField] and [validate] *)

(** A field element, as [validateField] sees it through jQuery: the node
    itself and the results of [el.val()], [el.data("validate")] and
    [el.attr("placeholder")]. *)
Record field : Type := {
  node : N;
  val : jsval;
  data_validate : jsval;
  attr_placeholder : jsval
}.

(** What a call does, in order. *)
Inductive event : Type :=
| Validated (key : jsstring) (value : jsval)  (* service.validator[key](value) *)
| DisplayError (f : field) (msg : jsval)      (* service.displayError(f, msg) *)
| RemoveErrors.                               (* $(".validation-error").remove() *)

Inductive exn : Type := TypeError.

Inductive completion (A : Type) : Type :=
| Normal (a : A)
| Throw (e : exn).
Arguments Normal {A} a.
Arguments Throw {A} e.

(** A computation: the events it performed and how it completed. *)
Record comp (A : Type) : Type := Comp {
  trace : list event;
  outcome : completion A
}.
Arguments Comp {A} trace outcome.
Arguments trace {A} c.
Arguments outcome {A} c.

#[export] Instance comp_ret : MRet comp := fun A a => Comp [] (Normal a).

#[export] Instance comp_bind : MBind comp := fun A B k c =>
  match outcome c with
  | Normal a => Comp (trace c ++ trace (k a)) (outcome (k a))
  | Throw e => Comp (trace c) (Throw e)
  end.

Definition emit (e : event) : comp unit := Comp [e] (Normal tt).
Definition throw {A} (e : exn) : comp A := Comp [] (Throw e).

(** [service.displayError(fieldElement, msg)]: inserts one
    [validation-error] marker with text [msg] before the field; the call is
    recorded, the geometry of the marker is not modelled. *)
Definition displayError (fieldElement : field) (msg : jsval) : comp unit :=
  emit (DisplayError fieldElement msg).

(** ** The properties that [service.validator] inherits

    [service.validator] is written as an object literal, so its prototype
    is [Object.prototype], and the property read [service.validator[key]]
    of [validateField] also finds what [Object.prototype] holds: eleven
    functions and the accessor [__proto__]. *)
Module Object_prototype.

(** The property names of [Object.prototype]. *)
Inductive property : Type :=
| constructor
| hasOwnProperty
| isPrototypeOf
| propertyIsEnumerable
| toLocaleString
| toString
| valueOf
| __defineGetter__
| __defineSetter__
| __lookupGetter__
| __lookupSetter__
| __proto__.

Definition properties : gmap jsstring property :=
  list_to_map
    [ (lit "constructor", constructor);
      (lit "hasOwnProperty", hasOwnProperty);
      (lit "isPrototypeOf", isPrototypeOf);
      (lit "propertyIsEnumerable", propertyIsEnumerable);
      (lit "toLocaleString", toLocaleString);
      (lit "toString", toString);
      (lit "valueOf", valueOf);
      (lit "__defineGetter__", __defineGetter__);
      (lit "__defineSetter__", __defineSetter__);
      (lit "__lookupGetter__", __lookupGetter__);
      (lit "__lookupSetter__", __lookupSetter__);
      (lit "__proto__", __proto__) ].

(** Is the value of the property a function? All are but that of
    [__proto__]: its getter gives the prototype of the receiver, which for
    [service.validator] is the object [Object.prototype]. Each of the
    twelve values is truthy. *)
Definition callable (p : property) : bool :=
  match p with
  | __proto__ => false
  | _ => true
  end.

(** What such a call gives back, as far as [validateField] looks at it:
    reading [result.error] throws when [result] is [undefined], and gives
    [undefined] on everything else that these functions return (a boolean, a
    string, a function, or an object without a property [error]). *)
Inductive value : Type :=
| Undefined
| Other.

(** [service.validator[p](arg)]: the receiver is [service.validator] and
    [arg] is the only argument.
    - [constructor] is [Object] and returns an object made from [arg];
      [hasOwnProperty], [isPrototypeOf] and [propertyIsEnumerable] return a
      boolean; [toString] and [toLocaleString] return a string; [valueOf]
      returns the receiver;
    - [__defineGetter__] and [__defineSetter__] throw a [TypeError], their
      second argument being [undefined] and so not a function;
    - [__lookupGetter__] and [__lookupSetter__] return the accessor function
      of the property named [ToString(arg)] of the receiver or of its
      prototype, and [undefined] when that property is a data property or
      does not exist; the only accessor there is [__proto__];
    - the value of [__proto__] is not a function: calling it throws a
      [TypeError]. *)
Definition call (p : property) (arg : jsval) : completion value :=
  match p with
  | constructor | hasOwnProperty | isPrototypeOf | propertyIsEnumerable
  | toLocaleString | toString | valueOf => Normal Other
  | __defineGetter__ | __defineSetter__ => Throw TypeError
  | __lookupGetter__ | __lookupSetter__ =>
      if bool_decide (ToString arg = lit "__proto__") then Normal Other
      else Normal Undefined
  | __proto__ => Throw TypeError
  end.

End Object_prototype.

(** What the property read [service.validator[key]] finds. *)
Inductive member : Type :=
| Validator (rule : jsval -> ValidationResult)
| Inherited (p : Object_prototype.property).

(** [service.validator[key]]: an own property, else a property of the
    prototype; [None] is [undefined]. Whatever is found is truthy. *)
Definition service_validator_get (key : jsstring) : option member :=
  match service_validator !! key with
  | Some rule => Some (Validator rule)
  | None => Inherited <$> Object_prototype.properties !! key
  end.

(** The value of [result] after
    [var result = service.validator[key](value)]. *)
Inductive returned : Type :=
| Result (r : ValidationResult)
| Builtin (v : Object_prototype.value).

(** The call [service.validator[key](value)], [m] being what the property
    read found. The invocation is recorded when a function is entered. *)
Definition invoke (key : jsstring) (m : member) (value : jsval)
    : comp returned :=
  match m with
  | Validator rule =>
      emit (Validated key value) ;;
      mret (Result (rule value))
  | Inherited p =>
      (if Object_prototype.callable p then emit (Validated key value)
       else mret tt) ;;
      v ← Comp [] (Object_prototype.call p value);
      mret (Builtin v)
  end.

(** [result.error], as the condition of the [if]. *)
Definition get_error (result : returned) : comp bool :=
  match result with
  | Result r => mret (error r)
  | Builtin Object_prototype.Undefined => throw TypeError
  | Builtin Object_prototype.Other => mret false
  end.

(** [result.message], read only when [result.error] was truthy. *)
Definition get_message (result : returned) : jsval :=
  match result with
  | Result r => message r
  | Builtin _ => undefined
  end.

(** The [for] loop of [validateField] from index [i] on, [validations] being
    what is left of the array: the loop ends at the first failing rule
    ([passed = false; ...; break]), at the end of the array, or with the
    exception that the call or the read of [result.error] throws. *)
Fixpoint validations_loop (fieldElement : field) (value : jsval)
    (validations : list jsstring) : comp bool :=
  match validations with
  | [] => mret true
  | key :: rest =>
      match service_validator_get key with
      | Some m =>
          result ← invoke key m value;
          failed ← get_error result;
          if failed : bool then
            displayError fieldElement (get_message result) ;;
            mret false
          else validations_loop fieldElement value rest
      | None => validations_loop fieldElement value rest
      end
  end.

(** The array [validations] after the two [if]s, [None] when neither
    assigned it. *)
Definition resolve_validations (fieldElement : field) (opt_validations : jsval)
    : option (list jsstring) :=
  if ToBoolean opt_validations then
    Some (split (ch ",") (ToString opt_validations))
  else if ToBoolean (data_validate fieldElement) then
    Some (split (ch ",") (ToString (data_validate fieldElement)))
  else None.

(** The value the rules are given. *)
Definition effective_value (fieldElement : field) : jsval :=
  if loose_eq (val fieldElement) (attr_placeholder fieldElement)
  then str (lit "")
  else val fieldElement.

(** [service.validateField(fieldElement, opt_validations)]; an omitted
    argument is [undefined]. Reading [validations.length] when
    [validations] was never assigned throws a [TypeError]. *)
Definition validateField (fieldElement : field) (opt_validations : jsval)
    : comp bool :=
  let value := effective_value fieldElement in
  match resolve_validations fieldElement opt_validations with
  | Some validations => validations_loop fieldElement value validations
  | None => throw TypeError
  end.

(** The callback of [$(sel).each] over the elements that are left; it
    returns nothing, so [each] never stops early. *)
Fixpoint each_field (fields : list field) (passed : bool) : comp bool :=
  match fields with
  | [] => mret passed
  | this :: rest =>
      ok ← validateField this undefined;
      each_field rest (if negb ok then false else passed)
  end.

Section Validate.

(** [$(sel)]: the elements of the document that a selector matches, in
    document order. *)
Variable jQuery : jsstring -> list field.

(** [service.validate(containerId, removeOldErrors)]. *)
Definition validate (containerId : jsval) (removeOldErrors : bool) : comp bool :=
  let sel := lit "[data-validate]:visible" in
  let sel :=
    if negb (strict_eq containerId undefined) then
      lit "#" ++ ToString containerId ++ lit ":visible " ++ sel
    else sel in
  (if removeOldErrors then emit RemoveErrors else mret tt) ;;
  each_field (jQuery sel) true.

End Validate.

(** ** Vocabulary of the statements *)

(** The keys of a rule list that [service.validator] holds, in their order. *)
Definition registered (rules : list jsstring) : list jsstring :=
  filter (fun key => is_Some (service_validator !! key)) rules.

(** The rule [key], if there is one, does not fail on [value]. *)
Definition passes (value : jsval) (key : jsstring) : Prop :=
  forall rule, service_validator !! key = Some rule -> error (rule value) = false.

(** One validator invocation per key, all on the same value. *)
Definition evaluations (value : jsval) (keys : list jsstring) : list event :=
  map (fun key => Validated key value) keys.

(** The per-field result of [validate]'s callback. *)
Definition field_result (f : field) : completion bool :=
  outcome (validateField f undefined).

Definition field_passes (f : field) : bool :=
  match field_result f with
  | Normal true => true
  | _ => false
  end.

(** The selector that [validate] hands to jQuery. *)
Definition selector (containerId : jsval) : jsstring :=
  if negb (strict_eq containerId undefined) then
    lit "#" ++ ToString containerId ++ lit ":visible [data-validate]:visible"
  else lit "[data-validate]:visible".

(** Sample fields. *)
Definition sample_field (n : N) (value declared placeholder : jsval) : field :=
  {| node := n; val := value; data_validate := declared;
     attr_placeholder := placeholder |}.

Definition empty_required_email : field :=
  sample_field 1 (str (lit "")) (str (lit "required,email")) undefined.

Definition filled_required_email : field :=
  sample_field 2 (str (lit "a@b.co")) (str (lit "required,email")) undefined.

Definition placeholder_shown : field :=
  sample_field 3 (str (lit "Amount")) (str (lit "required"))
    (str (lit "Amount")).

Definition misspelt_rules : field :=
  sample_field 4 (str (lit "")) (str (lit "requird, email")) undefined.

Definition undeclared : field :=
  sample_field 5 (str (lit "x")) undefined undefined.

Definition empty_declaration : field :=
  sample_field 6 (str (lit "x")) (str (lit "")) undefined.

(** A document whose annotated fields are a filled field, a field with an
    empty declaration, and an empty required field. *)
Definition sample_document (sel : jsstring) : list field :=
  [filled_required_email; empty_declaration; empty_required_email].

(** The five rule keys on which a call can throw: each names a property of
    [Object.prototype] that [validateField] cannot use as a validator. *)
Definition throwing_keys : list jsstring :=
  [ lit "__proto__"; lit "__defineGetter__"; lit "__defineSetter__";
    lit "__lookupGetter__"; lit "__lookupSetter__" ].

(** The keys of a rule list on which [service.validator[key]] finds
    something, in their order. *)
Definition found (rules : list jsstring) : list jsstring :=
  filter (fun key => is_Some (service_validator_get key)) rules.

(** A field whose [el.data("validate")] is a non-empty string none of whose
    keys is one of [throwing_keys]. *)
Definition well_declared (f : field) : Prop :=
  ToBoolean (data_validate f) = true /\
  Forall (fun key => key ∉ throwing_keys)
         (split (ch ",") (ToString (data_validate f))).

(** Sample fields that declare a property name of [Object.prototype]. *)
Definition proto_then_required : field :=
  sample_field 7 (str (lit "")) (str (lit "__proto__,required")) undefined.

Definition required_then_proto : field :=
  sample_field 8 (str (lit "x")) (str (lit "required,__proto__")) undefined.

(** ** The submit binding *)

Section Submitter.

(** [$(sel)], as in [validate]. *)
Variable jQuery : jsstring -> list field.

(** The click handler that the module binds to the [*[data-submitter]]
    elements. [data_submitter] is [this.getAttribute("data-submitter")], a
    string since the element matched the selector; [validate] is called
    with one argument, so [removeOldErrors] is [undefined]. The result
    tells whether [e.preventDefault()] was called. *)
Definition submitter_click (data_submitter : jsstring) : comp bool :=
  let containerId := str data_submitter in
  ok ← validate jQuery containerId false;
  if negb ok then mret true else mret false.

End Submitter.

(** ** Vocabulary of the further properties *)

(** Every class of [r] lies within [p]. *)
Fixpoint within (p : code_unit -> bool) (r : RegExp.regex) : Prop :=
  match r with
  | RegExp.Never | RegExp.Empty => True
  | RegExp.Class q => forall c, q c = true -> p c = true
  | RegExp.Cat a b | RegExp.Alt a b => within p a /\ within p b
  | RegExp.Star a => within p a
  end.

(** The length of the shortest string of [r]; [None] when [r] has no
    string. *)
Fixpoint min_length (r : RegExp.regex) : option nat :=
  match r with
  | RegExp.Never => None
  | RegExp.Empty => Some 0
  | RegExp.Class _ => Some 1
  | RegExp.Cat a b =>
      match min_length a, min_length b with
      | Some m, Some n => Some (m + n)
      | _, _ => None
      end
  | RegExp.Alt a b =>
      match min_length a, min_length b with
      | Some m, Some n => Some (m `min` n)
      | Some m, None | None, Some m => Some m
      | None, None => None
      end
  | RegExp.Star _ => Some 0
  end.

(** A bound on the length of the strings of [r]; [None] under a star. *)
Fixpoint max_length (r : RegExp.regex) : option nat :=
  match r with
  | RegExp.Never | RegExp.Empty => Some 0
  | RegExp.Class _ => Some 1
  | RegExp.Cat a b =>
      match max_length a, max_length b with
      | Some m, Some n => Some (m + n)
      | _, _ => None
      end
  | RegExp.Alt a b =>
      match max_length a, max_length b with
      | Some m, Some n => Some (m `max` n)
      | _, _ => None
      end
  | RegExp.Star _ => None
  end.

(** The error displays of a trace: field and message, in order. *)
Definition displayed (t : list event) : list (field * jsval) :=
  omap (fun e => match e with
                 | DisplayError f msg => Some (f, msg)
                 | _ => None
                 end) t.

(** The message texts of the six validators. *)
Definition messages : list jsstring :=
  [ lit "Invalid email address"; lit "Required"; lit "Empty value";
    lit "Invalid value"; lit "Invalid credit card"; lit "Invalid CVV" ].

(** Lower-case letters and digits. *)
Definition is_alnum (c : code_unit) : bool :=
  in_range "a" "z" c || in_range "0" "9" c.

Definition is_lower (c : code_unit) : bool := in_range "a" "z" c.

(** Does the rule [key], if registered, pass on [value]? *)
Definition rule_passes (value : jsval) (key : jsstring) : bool :=
  match service_validator !! key with
  | Some rule => negb (error (rule value))
  | None => true
  end.

(** A document whose annotated fields all declare rules: a filled field, an
    empty required field and a field that shows its placeholder. *)
Definition declared_document (sel : jsstring) : list field :=
  [filled_required_email; empty_required_email; placeholder_shown].

(** * Properties *)

(** ** The matcher decides the language of a regular expression *)

Section Matcher.
Import RegExp.

Lemma lang_Cat_inv r s w :
  lang (Cat r s) w -> exists u v, w = u ++ v /\ lang r u /\ lang s v.
Proof. intros H. inversion H; subst. by eexists _, _. Qed.

Lemma nullable_lang r : nullable r = true <-> lang r [].
Proof.
  induction r as [| |p|r1 IH1 r2 IH2|r1 IH1 r2 IH2|r IH]; simpl.
  - split; [done | inversion 1].
  - split; [constructor | done].
  - split; [done | inversion 1].
  - rewrite andb_true_iff, IH1, IH2. split.
    + intros [H1 H2]. exact (lang_Cat _ _ [] [] H1 H2).
    + intros (u & v & Heq & Hu & Hv)%lang_Cat_inv. symmetry in Heq.
      by apply app_eq_nil in Heq as [-> ->].
  - rewrite orb_true_iff, IH1, IH2. split.
    + intros [H | H]; [by apply lang_Alt_l | by apply lang_Alt_r].
    + intros H. inversion H; subst; auto.
  - split; [constructor | done].
Qed.

(** A non-empty string of [Star r] starts with a non-empty string of [r]. *)
Lemma lang_Star_cons r c s :
  lang (Star r) (c :: s) ->
  exists u v, s = u ++ v /\ lang r (c :: u) /\ lang (Star r) v.
Proof.
  intros H. remember (Star r) as r' eqn:Hr. remember (c :: s) as w eqn:Hw.
  induction H as [| | | | | |r0 u v Hu _ Hv IH]; try discriminate.
  injection Hr as ->. destruct u as [|c' u]; simpl in Hw.
  - by apply IH.
  - injection Hw as -> <-. by exists u, v.
Qed.

(** The strings of [Cat r s] that start with [c]. *)
Lemma lang_Cat_cons r s c w :
  lang (Cat r s) (c :: w) ->
  (lang r [] /\ lang s (c :: w)) \/
  exists u v, w = u ++ v /\ lang r (c :: u) /\ lang s v.
Proof.
  intros (u & v & Heq & Hu & Hv)%lang_Cat_inv.
  destruct u as [|c' u]; simpl in Heq.
  - subst v. by left.
  - injection Heq as -> ->. right. by exists u, v.
Qed.

Lemma deriv_lang r c s : lang (deriv c r) s <-> lang r (c :: s).
Proof.
  revert s.
  induction r as [| |p|r1 IH1 r2 IH2|r1 IH1 r2 IH2|r IH]; intros s; simpl.
  - split; inversion 1.
  - split; inversion 1.
  - destruct (p c) eqn:Hp; split; intros H.
    + inversion H; subst. by apply lang_Class.
    + inversion H; subst. constructor.
    + inversion H.
    + inversion H; subst. congruence.
  - assert (forall w, lang (Cat (deriv c r1) r2) w ->
                      lang (Cat r1 r2) (c :: w)) as Hcat.
    { intros w (u & v & -> & Hu & Hv)%lang_Cat_inv.
      apply IH1 in Hu. exact (lang_Cat _ _ (c :: u) v Hu Hv). }
    destruct (nullable r1) eqn:Hnull; split; intros H.
    + inversion H as [| | |? ? ? Hl|? ? ? Hr| |]; subst.
      * by apply Hcat.
      * apply IH2 in Hr. apply nullable_lang in Hnull.
        exact (lang_Cat _ _ [] (c :: s) Hnull Hr).
    + apply lang_Cat_cons in H as [[_ H] | (u & v & -> & Hu & Hv)].
      * apply lang_Alt_r. by apply IH2.
      * apply lang_Alt_l. apply lang_Cat; [by apply IH1 | done].
    + by apply Hcat.
    + apply lang_Cat_cons in H as [[H _] | (u & v & -> & Hu & Hv)].
      * apply nullable_lang in H. congruence.
      * apply lang_Cat; [by apply IH1 | done].
  - split; intros H.
    + inversion H; subst; [apply lang_Alt_l; by apply IH1
                          | apply lang_Alt_r; by apply IH2].
    + inversion H; subst; [apply lang_Alt_l; by apply IH1
                          | apply lang_Alt_r; by apply IH2].
  - split; intros H.
    + apply lang_Cat_inv in H as (u & v & -> & Hu & Hv).
      apply IH in Hu. exact (lang_Star_more _ (c :: u) v Hu Hv).
    + apply lang_Star_cons in H as (u & v & -> & Hu & Hv).
      apply lang_Cat; [by apply IH | done].
Qed.

(** [/^r$/.test(s)] holds exactly when [s] is a string of [r]. *)
Lemma matches_lang r s : matches r s = true <-> lang r s.
Proof.
  revert r. induction s as [|c s IH]; intros r; simpl.
  - apply nullable_lang.
  - rewrite IH. apply deriv_lang.
Qed.

Lemma matches_prefix_unfold r s :
  matches_prefix r s
  = nullable r || match s with
                  | [] => false
                  | c :: rest => matches_prefix (deriv c r) rest
                  end.
Proof. by destruct s. Qed.

Lemma matches_prefix_lang r s :
  matches_prefix r s = true <-> exists u v, s = u ++ v /\ lang r u.
Proof.
  revert r. induction s as [|c s IH]; intros r;
    rewrite matches_prefix_unfold, orb_true_iff, nullable_lang.
  - split.
    + intros [H | [=]]. by exists [], [].
    + intros (u & v & Heq & H). symmetry in Heq.
      apply app_eq_nil in Heq as [-> ->]. by left.
  - rewrite IH. split.
    + intros [H | (u & v & -> & H)]; [by exists [], (c :: s) |].
      exists (c :: u), v. split; [done | by apply deriv_lang].
    + intros ([|c' u] & v & Heq & H); [by left | right].
      injection Heq as -> ->. exists u, v. split; [done | by apply deriv_lang].
Qed.

Lemma test_search_unfold r s :
  test_search r s
  = matches_prefix r s || match s with
                          | [] => false
                          | _ :: rest => test_search r rest
                          end.
Proof. by destruct s. Qed.

(** [/r/.test(s)] holds exactly when some substring of [s] is a string of
    [r]. *)
Lemma test_search_lang r s :
  test_search r s = true <-> exists pre u post, s = pre ++ u ++ post /\ lang r u.
Proof.
  induction s as [|c s IH];
    rewrite test_search_unfold, orb_true_iff, matches_prefix_lang.
  - split.
    + intros [(u & v & Heq & H) | [=]]. by exists [], u, v.
    + intros (pre & u & post & Heq & H). symmetry in Heq.
      apply app_eq_nil in Heq as [-> Heq]. left. by exists u, post.
  - rewrite IH. split.
    + intros [(u & v & Heq & H) | (pre & u & post & -> & H)].
      * by exists [], u, v.
      * by exists (c :: pre), u, post.
    + intros ([|c' pre] & u & post & Heq & H).
      * left. by exists u, post.
      * injection Heq as -> ->. right. by exists pre, u, post.
Qed.

End Matcher.

(** ** The validators *)

Section Validators.
Import RegExp Number.

Lemma loose_eq_refl v : loose_eq v v = true.
Proof. destruct v as [| |s]; simpl; try reflexivity. by apply bool_decide_eq_true. Qed.

Lemma matches_prefix_Never s : matches_prefix Never s = false.
Proof. induction s as [|c s IH]; simpl; [reflexivity | exact IH]. Qed.

Lemma matches_prefix_Empty s : matches_prefix Empty s = true.
Proof. destruct s; reflexivity. Qed.

Lemma matches_prefix_Class p c s : matches_prefix (Class p) (c :: s) = p c.
Proof.
  simpl. destruct (p c).
  - apply matches_prefix_Empty.
  - apply matches_prefix_Never.
Qed.

(** Searching for a class is looking for one of its code units. *)
Lemma test_search_Class p s : test_search (Class p) s = existsb p s.
Proof.
  induction s as [|c s IH]; [reflexivity |].
  by rewrite test_search_unfold, matches_prefix_Class, IH.
Qed.

Lemma is_digit_range c : is_digit c = true <-> (48 <= c <= 57)%N.
Proof.
  unfold is_digit, in_range. rewrite andb_true_iff, !N.leb_le. reflexivity.
Qed.

Lemma strip_leading_white s :
  forallb is_str_white_space s = true -> strip_leading s = [].
Proof.
  induction s as [|c s IH]; simpl; [reflexivity |].
  intros [Hc Hs]%andb_true_iff. rewrite Hc. by apply IH.
Qed.

(** White space alone converts to [+0]. *)
Lemma StringToNumber_white s :
  forallb is_str_white_space s = true -> StringToNumber s = zero.
Proof.
  intros H. unfold StringToNumber, trim. by rewrite (strip_leading_white s H).
Qed.

Lemma positive_error v :
  error (validator.positive v) = isNaN (ToNumber v) || lt_zero (ToNumber v).
Proof. unfold validator.positive. by destruct (isNaN _ || lt_zero _). Qed.

End Validators.

(** C7: [required] fails exactly on the empty string, [null] and
    [undefined]; so it fails for [""], [null], [undefined] and passes for
    ["0"] and [" "]. *)
Theorem required_fails_iff_absent :
  (forall value,
     error (validator.required value) = true <->
     value = str (lit "") \/ value = null \/ value = undefined) /\
  error (validator.required (str (lit ""))) = true /\
  error (validator.required null) = true /\
  error (validator.required undefined) = true /\
  error (validator.required (str (lit "0"))) = false /\
  error (validator.required (str (lit " "))) = false.
Proof.
  split; [| by vm_compute].
  intros value. destruct value as [| |[|c s]]; simpl; split; try done; auto.
  intros [[=] | [[=] | [=]]].
Qed.

(** C8: [positive] fails exactly when [+value] is NaN or below zero; a zero
    passes; it fails for ["-1"] and ["abc"] and passes for ["0"] and
    ["3.5"]. *)
Theorem positive_fails_iff_nan_or_negative :
  (forall value,
     error (validator.positive value) = true <->
     Number.isNaN (Number.ToNumber value) = true \/
     Number.lt_zero (Number.ToNumber value) = true) /\
  (forall value negative e,
     Number.ToNumber value = Number.Finite negative 0 e ->
     error (validator.positive value) = false) /\
  error (validator.positive (str (lit "-1"))) = true /\
  error (validator.positive (str (lit "abc"))) = true /\
  error (validator.positive (str (lit "0"))) = false /\
  error (validator.positive (str (lit "3.5"))) = false.
Proof.
  split; [| split; [| by vm_compute]].
  - intros value. rewrite positive_error. apply orb_true_iff.
  - intros value negative e H. rewrite positive_error, H. simpl.
    apply andb_false_r.
Qed.

(** C9: [string] fails exactly when the value is falsy, with the message
    "Empty value", or holds a decimal digit; it fails for ["abc1"] and [""]
    and passes for ["abc"]. *)
Theorem string_fails_iff_falsy_or_digit :
  (forall value,
     error (validator.string value) = true <->
     ToBoolean value = false \/
     exists s c, value = str s /\ c ∈ s /\ is_digit c = true) /\
  (forall value,
     ToBoolean value = false ->
     validator.string value
     = {| error := true; message := str (lit "Empty value") |}) /\
  error (validator.string (str (lit "abc1"))) = true /\
  error (validator.string (str (lit ""))) = true /\
  error (validator.string (str (lit "abc"))) = false.
Proof.
  split; [| split; [| by vm_compute]].
  - intros value. unfold validator.string.
    destruct (ToBoolean value) eqn:Htruthy; simpl.
    + destruct value as [| |s]; try discriminate. simpl.
      unfold RegExp.digit. rewrite test_search_Class, existsb_exists.
      split.
      * intros (c & Hin & Hc). right. exists s, c.
        by rewrite list_elem_of_In.
      * intros [[=] | (s' & c & [= <-] & Hin & Hc)].
        exists c. by rewrite <- list_elem_of_In.
    + split; auto.
  - intros value H. unfold validator.string. by rewrite H.
Qed.

(** C3: [creditCard] accepts the literal 4567456745674567 whatever the
    issuer pattern says of it, and rejects ["1234"]. *)
Theorem creditCard_literal_bypass :
  (forall re,
     error (validator.creditCard_with re (str (lit "4567456745674567")))
     = false) /\
  error (validator.creditCard (str (lit "4567456745674567"))) = false /\
  error (validator.creditCard (str (lit "1234"))) = true.
Proof.
  split; [| by vm_compute].
  intros re. unfold validator.creditCard_with.
  destruct (RegExp.test_anchored re _); reflexivity.
Qed.

(** The issuer pattern itself matches that literal (a 16-digit number that
    starts with 4), so the bypass branch is not what accepts it. *)
Remark creditCard_literal_matches_pattern :
  RegExp.test_anchored validator.creditCard_re (lit "4567456745674567") = true.
Proof. by vm_compute. Qed.

(** ** The rule loop *)

(** [Object.prototype] holds its twelve properties and nothing else. *)
Lemma properties_inv key p :
  Object_prototype.properties !! key = Some p ->
  (key, p) ∈ [ (lit "constructor", Object_prototype.constructor);
               (lit "hasOwnProperty", Object_prototype.hasOwnProperty);
               (lit "isPrototypeOf", Object_prototype.isPrototypeOf);
               (lit "propertyIsEnumerable",
                Object_prototype.propertyIsEnumerable);
               (lit "toLocaleString", Object_prototype.toLocaleString);
               (lit "toString", Object_prototype.toString);
               (lit "valueOf", Object_prototype.valueOf);
               (lit "__defineGetter__", Object_prototype.__defineGetter__);
               (lit "__defineSetter__", Object_prototype.__defineSetter__);
               (lit "__lookupGetter__", Object_prototype.__lookupGetter__);
               (lit "__lookupSetter__", Object_prototype.__lookupSetter__);
               (lit "__proto__", Object_prototype.__proto__) ].
Proof. apply elem_of_list_to_map_2. Qed.

Ltac properties_cases H :=
  apply properties_inv in H;
  repeat (apply elem_of_cons in H as [H | H]; [injection H as -> -> |]);
  [.. | by apply elem_of_nil in H].

(** No validator bears the name of a property of [Object.prototype]. *)
Lemma properties_not_own key p :
  Object_prototype.properties !! key = Some p ->
  service_validator !! key = None.
Proof. intros H. properties_cases H; reflexivity. Qed.

(** Outside the five [throwing_keys], what [Object.prototype] holds is a
    function that returns something other than [undefined]. *)
Lemma harmless_key key p value :
  key ∉ throwing_keys ->
  Object_prototype.properties !! key = Some p ->
  Object_prototype.callable p = true /\
  Object_prototype.call p value = Normal Object_prototype.Other.
Proof.
  intros Hkey H. properties_cases H; try (split; reflexivity);
    exfalso; apply Hkey; unfold throwing_keys; rewrite !elem_of_cons; auto 10.
Qed.

(** A call that does not give such a value is on one of the five. *)
Lemma throwing_key key p value :
  Object_prototype.properties !! key = Some p ->
  Object_prototype.call p value <> Normal Object_prototype.Other ->
  key ∈ throwing_keys.
Proof.
  intros H Hcall. unfold throwing_keys.
  properties_cases H; try (by exfalso; apply Hcall);
    rewrite !elem_of_cons; auto 10.
Qed.

Lemma get_own key rule :
  service_validator !! key = Some rule ->
  service_validator_get key = Some (Validator rule).
Proof. intros H. unfold service_validator_get. by rewrite H. Qed.

Lemma get_inherited key p :
  Object_prototype.properties !! key = Some p ->
  service_validator_get key = Some (Inherited p).
Proof.
  intros H. unfold service_validator_get.
  by rewrite (properties_not_own _ _ H), H.
Qed.

Lemma get_absent key :
  service_validator !! key = None ->
  Object_prototype.properties !! key = None ->
  service_validator_get key = None.
Proof. intros H H'. unfold service_validator_get. by rewrite H, H'. Qed.

Lemma get_cases key :
  (exists rule, service_validator !! key = Some rule) \/
  (exists p, Object_prototype.properties !! key = Some p) \/
  service_validator_get key = None.
Proof.
  destruct (service_validator !! key) as [rule|] eqn:H; [left; by eexists |].
  destruct (Object_prototype.properties !! key) as [p|] eqn:H';
    [right; left; by eexists |].
  right. right. by apply get_absent.
Qed.

Section RuleLoop.

Variable f : field.
Variable value : jsval.

Lemma loop_absent key rest :
  service_validator_get key = None ->
  validations_loop f value (key :: rest) = validations_loop f value rest.
Proof. intros H. simpl. by rewrite H. Qed.

Lemma loop_pass key rule rest :
  service_validator !! key = Some rule ->
  error (rule value) = false ->
  validations_loop f value (key :: rest)
  = Comp (Validated key value :: trace (validations_loop f value rest))
         (outcome (validations_loop f value rest)).
Proof.
  intros H E. simpl. rewrite (get_own _ _ H).
  unfold mbind, comp_bind. simpl. by rewrite E.
Qed.

Lemma loop_fail key rule rest :
  service_validator !! key = Some rule ->
  error (rule value) = true ->
  validations_loop f value (key :: rest)
  = Comp [Validated key value; DisplayError f (message (rule value))]
         (Normal false).
Proof.
  intros H E. simpl. rewrite (get_own _ _ H).
  unfold mbind, comp_bind. simpl. by rewrite E.
Qed.

(** The step of the loop at a property of [Object.prototype]: a function is
    entered unless the property is [__proto__]; the loop goes on when the
    call gives something other than [undefined], and throws otherwise. *)
Lemma loop_inherited key p rest :
  Object_prototype.properties !! key = Some p ->
  let called :=
    if Object_prototype.callable p then [Validated key value] else [] in
  validations_loop f value (key :: rest)
  = match Object_prototype.call p value with
    | Normal Object_prototype.Other =>
        Comp (called ++ trace (validations_loop f value rest))
             (outcome (validations_loop f value rest))
    | _ => Comp called (Throw TypeError)
    end.
Proof.
  intros H. simpl. rewrite (get_inherited _ _ H).
  unfold mbind, comp_bind.
  destruct p; simpl; try reflexivity;
    destruct (bool_decide _); reflexivity.
Qed.

Lemma registered_absent key rest :
  service_validator !! key = None -> registered (key :: rest) = registered rest.
Proof.
  intros H. unfold registered. apply filter_cons_False.
  rewrite H. by intros [? ?].
Qed.

Lemma registered_present key rule rest :
  service_validator !! key = Some rule ->
  registered (key :: rest) = key :: registered rest.
Proof. intros H. unfold registered. apply filter_cons_True. by rewrite H. Qed.

Lemma found_absent key rest :
  service_validator_get key = None -> found (key :: rest) = found rest.
Proof.
  intros H. unfold found. apply filter_cons_False. rewrite H. by intros [? ?].
Qed.

Lemma found_present key m rest :
  service_validator_get key = Some m -> found (key :: rest) = key :: found rest.
Proof. intros H. unfold found. apply filter_cons_True. by rewrite H. Qed.

Lemma rule_passes_not_own key :
  service_validator !! key = None -> rule_passes value key = true.
Proof. intros H. unfold rule_passes. by rewrite H. Qed.

(** The shape of every run of the loop: validator invocations on the
    loop's value, then
    - nothing more when the loop returns true, and then every rule of the
      list passes;
    - one error display on the field when it returns false, with the
      message of a rule of the list that fails;
    - nothing more when it throws, and then one of the five
      [throwing_keys] is in the list. *)
Lemma loop_shape rules :
  exists keys,
    match outcome (validations_loop f value rules) with
    | Normal true =>
        trace (validations_loop f value rules) = evaluations value keys /\
        forallb (rule_passes value) rules = true
    | Normal false =>
        exists key rule,
          trace (validations_loop f value rules)
          = evaluations value keys
            ++ [DisplayError f (message (rule value))] /\
          key ∈ rules /\
          service_validator !! key = Some rule /\
          error (rule value) = true
    | Throw e =>
        trace (validations_loop f value rules) = evaluations value keys /\
        e = TypeError /\
        exists key, key ∈ rules /\ key ∈ throwing_keys
    end.
Proof.
  induction rules as [|key rest [keys IH]]; [by exists [] |].
  destruct (get_cases key) as [[rule Hown] | [[p Hp] | Hnone]].
  - destruct (error (rule value)) eqn:E.
    + rewrite (loop_fail _ _ _ Hown E). exists [key]. cbn [outcome trace].
      exists key, rule. split_and!; [done | left | done | done].
    + rewrite (loop_pass _ _ _ Hown E). exists (key :: keys).
      cbn [outcome trace].
      destruct (outcome (validations_loop f value rest)) as [[|]|e].
      * destruct IH as [-> Hall]. split; [done |].
        cbn [forallb]. unfold rule_passes at 1. by rewrite Hown, E.
      * destruct IH as (k & r & -> & Hin & Hk & Hr).
        exists k, r. split_and!; [done | by right | done | done].
      * destruct IH as (-> & -> & k & Hin & Hk).
        split_and!; [done | done |]. exists k. split; [by right | done].
  - rewrite (loop_inherited _ _ _ Hp). cbv zeta.
    pose proof (properties_not_own _ _ Hp) as Hown.
    set (called := if Object_prototype.callable p then [key] else []).
    assert ((if Object_prototype.callable p then [Validated key value] else [])
            = evaluations value called) as ->.
    { unfold called. by destruct (Object_prototype.callable p). }
    destruct (Object_prototype.call p value) as [[|]|e] eqn:Hcall.
    + exists called. cbn [outcome trace]. split_and!; [done | done |].
      exists key. split; [left |].
      apply (throwing_key _ _ value Hp). by rewrite Hcall.
    + exists (called ++ keys). cbn [outcome trace].
      unfold evaluations at 2 4 6. rewrite map_app. fold (evaluations value called).
      fold (evaluations value keys).
      destruct (outcome (validations_loop f value rest)) as [[|]|e].
      * destruct IH as [-> Hall]. split; [done |].
        cbn [forallb]. by rewrite (rule_passes_not_own _ Hown).
      * destruct IH as (k & r & -> & Hin & Hk & Hr).
        exists k, r. split_and!; [by rewrite app_assoc | by right | done | done].
      * destruct IH as (-> & -> & k & Hin & Hk).
        split_and!; [done | done |]. exists k. split; [by right | done].
    + exists called. cbn [outcome trace]. split_and!; [done | by destruct e |].
      exists key. split; [left |].
      apply (throwing_key _ _ value Hp). by rewrite Hcall.
  - rewrite (loop_absent _ _ Hnone). exists keys.
    assert (service_validator !! key = None) as Hown.
    { unfold service_validator_get in Hnone.
      by destruct (service_validator !! key). }
    destruct (outcome (validations_loop f value rest)) as [[|]|e].
    + destruct IH as [-> Hall]. split; [done |].
      cbn [forallb]. by rewrite (rule_passes_not_own _ Hown).
    + destruct IH as (k & r & -> & Hin & Hk & Hr).
      exists k, r. split_and!; [done | by right | done | done].
    + destruct IH as (-> & -> & k & Hin & Hk).
      split_and!; [done | done |]. exists k. split; [by right | done].
Qed.

(** When no key of the list is one of the five [throwing_keys], the loop
    returns, and it returns whether all the rules of the list pass. *)
Lemma loop_outcome rules :
  Forall (fun key => key ∉ throwing_keys) rules ->
  outcome (validations_loop f value rules)
  = Normal (forallb (rule_passes value) rules).
Proof.
  intros Hrules. destruct (loop_shape rules) as [keys H].
  destruct (outcome (validations_loop f value rules)) as [[|]|e].
  - destruct H as [_ ->]. done.
  - destruct H as (key & rule & _ & Hin & Hk & Hr). f_equal. symmetry.
    apply not_true_is_false. intros Hall. rewrite forallb_forall in Hall.
    apply list_elem_of_In, Hall in Hin. unfold rule_passes in Hin.
    rewrite Hk, Hr in Hin. discriminate.
  - destruct H as (_ & _ & key & Hin & Hk). exfalso.
    rewrite Forall_forall in Hrules. by apply (Hrules key Hin).
Qed.

(** The loop returns true only when all the rules of the list pass. *)
Lemma loop_true rules :
  outcome (validations_loop f value rules) = Normal true ->
  forallb (rule_passes value) rules = true.
Proof.
  intros Hout. destruct (loop_shape rules) as [keys H].
  rewrite Hout in H. by destruct H.
Qed.

(** A prefix of keys that pass and do not throw is evaluated in order,
    then the loop goes on with what follows. *)
Lemma loop_passing_prefix pre rest :
  Forall (passes value) pre ->
  Forall (fun key => key ∉ throwing_keys) pre ->
  validations_loop f value (pre ++ rest)
  = Comp (evaluations value (found pre)
          ++ trace (validations_loop f value rest))
         (outcome (validations_loop f value rest)).
Proof.
  induction 1 as [|key pre Hkey _ IH]; intros Hpre; simpl app.
  - by destruct (validations_loop f value rest).
  - apply Forall_cons in Hpre as [Hk Hpre].
    destruct (get_cases key) as [[rule Hown] | [[p Hp] | Hnone]].
    + rewrite (loop_pass _ _ _ Hown (Hkey _ Hown)), (IH Hpre).
      by rewrite (found_present _ _ _ (get_own _ _ Hown)).
    + rewrite (loop_inherited _ _ _ Hp). cbv zeta.
      destruct (harmless_key _ _ value Hk Hp) as [-> ->].
      rewrite (IH Hpre). by rewrite (found_present _ _ _ (get_inherited _ _ Hp)).
    + by rewrite (loop_absent _ _ Hnone), (IH Hpre), (found_absent _ _ Hnone).
Qed.

(** Every validator invocation of the loop is on the loop's value. *)
Lemma loop_invocations rules key v :
  Validated key v ∈ trace (validations_loop f value rules) -> v = value.
Proof.
  destruct (loop_shape rules) as [keys H].
  assert (Validated key v ∈ evaluations value keys -> v = value) as Hev.
  { unfold evaluations. intros Hin%list_elem_of_In%in_map_iff.
    by destruct Hin as (k & [= _ <-] & _). }
  destruct (outcome (validations_loop f value rules)) as [[|]|e].
  - destruct H as [-> _]. exact Hev.
  - destruct H as (k & r & -> & _).
    rewrite elem_of_app, list_elem_of_singleton. intros [? | [=]]. auto.
  - destruct H as (-> & _). exact Hev.
Qed.

End RuleLoop.

Lemma validateField_resolved f opt rules :
  resolve_validations f opt = Some rules ->
  validateField f opt = validations_loop f (effective_value f) rules.
Proof. intros H. unfold validateField. by rewrite H. Qed.

Lemma lookup_required :
  service_validator !! lit "required" = Some validator.required.
Proof. reflexivity. Qed.

Lemma lookup_positive :
  service_validator !! lit "positive" = Some validator.positive.
Proof. reflexivity. Qed.

Lemma lookup_proto :
  Object_prototype.properties !! lit "__proto__"
  = Some Object_prototype.__proto__.
Proof. reflexivity. Qed.

(** What the code keeps of the rule order: as long as no key is one of the
    five [throwing_keys], the keys are evaluated in their declared order on
    the effective value; the call returns true when none fails, and at the
    first validator that fails it displays that validator's message and
    returns false. The functions of [Object.prototype] that a key names are
    evaluated with the validators. *)
Lemma validateField_first_failure f opt rules :
  resolve_validations f opt = Some rules ->
  (Forall (passes (effective_value f)) rules ->
   Forall (fun key => key ∉ throwing_keys) rules ->
   validateField f opt
   = Comp (evaluations (effective_value f) (found rules)) (Normal true)) /\
  (forall pre key rule post,
     rules = pre ++ key :: post ->
     Forall (passes (effective_value f)) pre ->
     Forall (fun key => key ∉ throwing_keys) pre ->
     service_validator !! key = Some rule ->
     error (rule (effective_value f)) = true ->
     validateField f opt
     = Comp (evaluations (effective_value f) (found pre)
             ++ [Validated key (effective_value f);
                 DisplayError f (message (rule (effective_value f)))])
            (Normal false)).
Proof.
  intros Hres. rewrite (validateField_resolved _ _ _ Hres). split.
  - intros Hpass Hrules.
    rewrite <- (app_nil_r rules) at 1.
    rewrite (loop_passing_prefix _ _ _ _ Hpass Hrules). simpl.
    by rewrite app_nil_r.
  - intros pre key rule post -> Hpre Hkeys Hkey Hfail.
    rewrite (loop_passing_prefix _ _ _ _ Hpre Hkeys).
    by rewrite (loop_fail _ _ _ _ _ Hkey Hfail).
Qed.

(** C1, the code at the failing input: a key that names a property of
    [Object.prototype] is found by [service.validator[key]] although the
    registry has no such rule. At the key [__proto__] the call throws a
    [TypeError]: the rules after it are not evaluated, so a failing rule
    among them is not reported and false is not returned. With the rules
    "__proto__,required" and the value "" nothing is evaluated or
    displayed; with "toString,required" the function [toString] is
    evaluated before [required]. Without such a key, the rules
    "required,email" on "" report "Required". *)
Theorem validateField_throws_before_failing_rule :
  (forall f opt pre post,
     resolve_validations f opt = Some (pre ++ lit "__proto__" :: post) ->
     Forall (passes (effective_value f)) pre ->
     Forall (fun key => key ∉ throwing_keys) pre ->
     validateField f opt
     = Comp (evaluations (effective_value f) (found pre))
            (Throw TypeError)) /\
  service_validator !! lit "__proto__" = None /\
  validateField proto_then_required undefined = Comp [] (Throw TypeError) /\
  validateField required_then_proto undefined
  = Comp [Validated (lit "required") (str (lit "x"))] (Throw TypeError) /\
  validateField empty_required_email (str (lit "toString,required"))
  = Comp [Validated (lit "toString") (str (lit ""));
          Validated (lit "required") (str (lit ""));
          DisplayError empty_required_email (str (lit "Required"))]
         (Normal false) /\
  validateField empty_required_email undefined
  = Comp [Validated (lit "required") (str (lit ""));
          DisplayError empty_required_email (str (lit "Required"))]
         (Normal false).
Proof.
  split; [| by vm_compute].
  intros f opt pre post Hres Hpre Hkeys.
  rewrite (validateField_resolved _ _ _ Hres).
  rewrite (loop_passing_prefix _ _ _ _ Hpre Hkeys).
  rewrite (loop_inherited _ _ _ _ _ lookup_proto). simpl.
  by rewrite app_nil_r.
Qed.

(** Keys that [service.validator[key]] finds nowhere are skipped: when it
    finds no key of the list, the call evaluates nothing, displays nothing
    and returns true. *)
Lemma validateField_skips_absent_keys f opt rules :
  resolve_validations f opt = Some rules ->
  Forall (fun key => service_validator_get key = None) rules ->
  validateField f opt = Comp [] (Normal true).
Proof.
  intros Hres Hnone. rewrite (validateField_resolved _ _ _ Hres). clear Hres.
  induction Hnone as [|key rest Hkey _ IH]; [reflexivity |].
  by rewrite (loop_absent _ _ _ _ Hkey).
Qed.

(** C6, the code at the failing input: the twelve property names of
    [Object.prototype] are keys that the registry does not hold, and none
    of them is skipped. A call whose rule list is one of them enters a
    function that is no validator or throws; it never returns true with
    nothing evaluated. On "__proto__" the call throws a [TypeError], on
    "constructor" it evaluates [Object] on the effective value, and on
    "__lookupGetter__" it throws after the function returned [undefined].
    A key that is found nowhere, as in "requird, email", is skipped. *)
Theorem validateField_finds_inherited_keys :
  (forall f opt key p,
     Object_prototype.properties !! key = Some p ->
     resolve_validations f opt = Some [key] ->
     service_validator !! key = None /\
     validateField f opt <> Comp [] (Normal true)) /\
  (forall f, validateField f (str (lit "__proto__")) = Comp [] (Throw TypeError)) /\
  (forall f,
     validateField f (str (lit "constructor"))
     = Comp [Validated (lit "constructor") (effective_value f)]
            (Normal true)) /\
  validateField empty_required_email (str (lit "__lookupGetter__"))
  = Comp [Validated (lit "__lookupGetter__") (str (lit ""))]
         (Throw TypeError) /\
  validateField misspelt_rules undefined = Comp [] (Normal true).
Proof.
  split_and!; [| done | done | by vm_compute | by vm_compute].
  intros f opt key p Hp Hres. split; [exact (properties_not_own _ _ Hp) |].
  rewrite (validateField_resolved _ _ _ Hres).
  rewrite (loop_inherited _ _ _ _ _ Hp). cbv zeta.
  destruct (Object_prototype.call p (effective_value f)) as [[|]|e] eqn:Hcall;
    [discriminate | | discriminate].
  destruct p; try discriminate.
Qed.

(** ** Placeholder suppression *)

Lemma effective_value_placeholder f :
  val f = attr_placeholder f -> effective_value f = str (lit "").
Proof. intros H. unfold effective_value. by rewrite H, loose_eq_refl. Qed.

(** Every validator invocation of a call is on the effective value. *)
Lemma validateField_invocations f opt key value :
  Validated key value ∈ trace (validateField f opt) ->
  value = effective_value f.
Proof.
  unfold validateField. destruct (resolve_validations f opt) as [rules|].
  - apply loop_invocations.
  - by intros ?%elem_of_nil.
Qed.

(** C4: when the value of the field is its placeholder text, the effective
    value is the empty string, and every rule evaluated in the call is
    given the empty string. *)
Theorem validateField_placeholder_is_empty f opt :
  val f = attr_placeholder f ->
  effective_value f = str (lit "") /\
  (forall key value,
     Validated key value ∈ trace (validateField f opt) ->
     value = str (lit "")) /\
  (forall rules,
     resolve_validations f opt = Some rules ->
     validateField f opt = validations_loop f (str (lit "")) rules).
Proof.
  intros H. pose proof (effective_value_placeholder f H) as Hv. split_and!.
  - exact Hv.
  - intros key value Hin. rewrite <- Hv.
    by apply validateField_invocations in Hin.
  - intros rules Hres. by rewrite (validateField_resolved _ _ _ Hres), Hv.
Qed.

Lemma validateField_placeholder_is_empty_witness :
  validateField placeholder_shown undefined
  = Comp [Validated (lit "required") (str (lit ""));
          DisplayError placeholder_shown (str (lit "Required"))]
         (Normal false).
Proof.
  rewrite (proj2 (proj2 (validateField_placeholder_is_empty
                           placeholder_shown undefined eq_refl))
             [lit "required"] eq_refl).
  reflexivity.
Defined.

(** C10: [positive] accepts the empty string and every string of white
    space, since they convert to [+0]; so on a field that shows its
    placeholder the rule "positive" does not fail, and a call with that
    rule evaluates it on the empty string, displays nothing and returns
    true. *)
Theorem positive_accepts_blank :
  Number.ToNumber (str (lit "")) = Number.zero /\
  error (validator.positive (str (lit ""))) = false /\
  (forall s,
     forallb is_str_white_space s = true ->
     Number.ToNumber (str s) = Number.zero /\
     error (validator.positive (str s)) = false) /\
  (forall f,
     val f = attr_placeholder f ->
     passes (effective_value f) (lit "positive") /\
     validateField f (str (lit "positive"))
     = Comp [Validated (lit "positive") (str (lit ""))] (Normal true)).
Proof.
  split_and!; [reflexivity | reflexivity | |].
  - intros s Hs. simpl. rewrite positive_error. simpl.
    by rewrite (StringToNumber_white s Hs).
  - intros f H. split.
    { intros rule Hrule. rewrite lookup_positive in Hrule.
      injection Hrule as <-. by rewrite (effective_value_placeholder f H). }
    rewrite (validateField_resolved f (str (lit "positive")) [lit "positive"]
               eq_refl).
    rewrite (effective_value_placeholder f H).
    exact (loop_pass f (str (lit "")) (lit "positive") _ []
             lookup_positive eq_refl).
Qed.

Lemma positive_accepts_blank_witness :
  error (validator.positive (str [0x20; 0x09; 0x0A; 0xA0; 0x3000]%N)) = false /\
  validateField placeholder_shown (str (lit "positive"))
  = Comp [Validated (lit "positive") (str (lit ""))] (Normal true).
Proof.
  split.
  - apply (proj1 (proj2 (proj2 positive_accepts_blank))). reflexivity.
  - apply (proj2 (proj2 (proj2 positive_accepts_blank))). reflexivity.
Defined.

(** ** Missing rule lists *)

(** A call whose rule list holds none of the five [throwing_keys]
    returns. *)
Lemma validateField_returns f opt rules :
  resolve_validations f opt = Some rules ->
  Forall (fun key => key ∉ throwing_keys) rules ->
  exists b, outcome (validateField f opt) = Normal b.
Proof.
  intros Hres Hrules. rewrite (validateField_resolved _ _ _ Hres).
  rewrite (loop_outcome _ _ _ Hrules). by eexists.
Qed.

Lemma declared_resolves f :
  ToBoolean (data_validate f) = true ->
  resolve_validations f undefined
  = Some (split (ch ",") (ToString (data_validate f))).
Proof. intros H. unfold resolve_validations. simpl. by rewrite H. Qed.

Lemma well_declared_returns f :
  well_declared f -> exists b, field_result f = Normal b.
Proof.
  intros [Hdecl Hkeys].
  exact (validateField_returns _ _ _ (declared_resolves f Hdecl) Hkeys).
Qed.

(** C2, the code at the failing input: without explicit rules, on a field
    whose declaration is absent, [null] or empty, [validations] is never
    assigned and the call throws a [TypeError] where the claim has it return
    true. *)
Theorem validateField_throws_without_rules :
  (forall f,
     ToBoolean (data_validate f) = false ->
     validateField f undefined = Comp [] (Throw TypeError)) /\
  validateField undeclared undefined = Comp [] (Throw TypeError) /\
  validateField empty_declaration undefined = Comp [] (Throw TypeError) /\
  validateField empty_declaration (str (lit "")) = Comp [] (Throw TypeError).
Proof.
  split; [| by vm_compute].
  intros f H. unfold validateField, resolve_validations. simpl. by rewrite H.
Qed.

(** ** The field loop *)

Lemma bind_normal {A B} (c : comp A) (a : A) (k : A -> comp B) :
  outcome c = Normal a ->
  (c ≫= k) = Comp (trace c ++ trace (k a)) (outcome (k a)).
Proof. intros H. unfold mbind, comp_bind. by rewrite H. Qed.

Lemma bind_throw {A B} (c : comp A) (e : exn) (k : A -> comp B) :
  outcome c = Throw e -> (c ≫= k) = Comp (trace c) (Throw e).
Proof. intros H. unfold mbind, comp_bind. by rewrite H. Qed.

(** As long as [validateField] returns, the callback runs on every element,
    whatever the earlier results, and [passed] ends as the conjunction of
    the results. *)
Lemma each_field_exhaustive fields passed :
  Forall (fun f => exists b, field_result f = Normal b) fields ->
  each_field fields passed
  = Comp (concat (map (fun f => trace (validateField f undefined)) fields))
         (Normal (passed && forallb field_passes fields)).
Proof.
  intros H. revert passed.
  induction H as [|f rest [b Hb] _ IH]; intros passed; simpl.
  - by rewrite andb_true_r.
  - rewrite (bind_normal _ b _ Hb), IH. simpl. f_equal. f_equal.
    assert (field_passes f = b) as ->.
    { unfold field_passes. rewrite Hb. by destruct b. }
    by destruct b, passed.
Qed.

(** A call that throws ends the loop: the elements after it are not
    visited. *)
Lemma each_field_throws pre f post passed e :
  Forall (fun f => exists b, field_result f = Normal b) pre ->
  field_result f = Throw e ->
  each_field (pre ++ f :: post) passed
  = Comp (concat (map (fun f => trace (validateField f undefined)) pre)
          ++ trace (validateField f undefined))
         (Throw e).
Proof.
  intros H Hf. revert passed.
  induction H as [|g rest [b Hb] _ IH]; intros passed; simpl.
  - by rewrite (bind_throw _ e _ Hf).
  - rewrite (bind_normal _ b _ Hb), IH. simpl. by rewrite app_assoc.
Qed.

(** Whatever the elements before it do, the loop throws when the call on
    one of its elements throws. *)
Lemma each_field_throws_at fields f passed :
  f ∈ fields ->
  field_result f = Throw TypeError ->
  outcome (each_field fields passed) = Throw TypeError.
Proof.
  intros Hin Hf. revert passed.
  induction fields as [|g rest IH]; intros passed;
    [by apply elem_of_nil in Hin |].
  simpl. destruct (outcome (validateField g undefined)) as [b|e] eqn:Hg.
  - rewrite (bind_normal _ b _ Hg). cbn [outcome].
    apply elem_of_cons in Hin as [-> | Hin]; [| by apply IH].
    unfold field_result in Hf. congruence.
  - rewrite (bind_throw _ e _ Hg). by destruct e.
Qed.

Section ValidateFacts.

Variable jQuery : jsstring -> list field.

Lemma validate_unfold containerId removeOldErrors :
  validate jQuery containerId removeOldErrors
  = Comp ((if removeOldErrors then [RemoveErrors] else [])
          ++ trace (each_field (jQuery (selector containerId)) true))
         (outcome (each_field (jQuery (selector containerId)) true)).
Proof.
  unfold validate, selector.
  destruct (negb (strict_eq containerId undefined)), removeOldErrors;
    reflexivity.
Qed.

(** On a field set on whose every field [validateField] returns, as it does
    on those that are [well_declared], [validate] visits every field and
    returns the conjunction of the per-field results: false exactly when
    some field fails. *)
Lemma validate_exhaustive containerId removeOldErrors :
  let fields := jQuery (selector containerId) in
  Forall (fun f => exists b, field_result f = Normal b) fields ->
  validate jQuery containerId removeOldErrors
  = Comp ((if removeOldErrors then [RemoveErrors] else [])
          ++ concat (map (fun f => trace (validateField f undefined)) fields))
         (Normal (forallb field_passes fields)) /\
  (forallb field_passes fields = false <->
   exists f, f ∈ fields /\ field_result f = Normal false).
Proof.
  intros fields Hret. split.
  - rewrite validate_unfold. fold fields.
    by rewrite (each_field_exhaustive _ _ Hret).
  - induction Hret as [|f rest [b Hb] _ IH]; simpl.
    + split; [done | by intros (? & ?%elem_of_nil & _)].
    + rewrite andb_false_iff, IH. unfold field_passes. rewrite Hb. split.
      * intros [Hf | (g & Hin & Hg)].
        -- exists f. split; [left |]. rewrite Hb. by destruct b.
        -- exists g. split; [by right | done].
      * intros (g & [-> | Hin]%elem_of_cons & Hg).
        -- left. rewrite Hb in Hg. by injection Hg as ->.
        -- right. by exists g.
Qed.

End ValidateFacts.

(** C5, the code at the failing input: when a selected field has an empty
    declaration, its [validateField] call throws, [validate] throws with
    it, and the fields after it are not visited: here the empty required
    field gets no error display and no conjunction is returned. *)
Theorem validate_throws_at_field_without_rules :
  (forall jQuery containerId removeOldErrors pre post,
     jQuery (selector containerId) = pre ++ empty_declaration :: post ->
     outcome (validate jQuery containerId removeOldErrors) = Throw TypeError /\
     (Forall (fun f => exists b, field_result f = Normal b) pre ->
      validate jQuery containerId removeOldErrors
      = Comp ((if removeOldErrors then [RemoveErrors] else [])
              ++ concat (map (fun f => trace (validateField f undefined)) pre))
             (Throw TypeError))) /\
  validate sample_document undefined true
  = Comp [RemoveErrors;
          Validated (lit "required") (str (lit "a@b.co"));
          Validated (lit "email") (str (lit "a@b.co"))]
         (Throw TypeError) /\
  validateField empty_required_email undefined
  = Comp [Validated (lit "required") (str (lit ""));
          DisplayError empty_required_email (str (lit "Required"))]
         (Normal false).
Proof.
  split; [| by vm_compute].
  intros jQuery containerId removeOldErrors pre post Hsel.
  rewrite validate_unfold, Hsel. cbn [outcome]. split.
  - apply (each_field_throws_at _ empty_declaration); [| reflexivity].
    rewrite elem_of_app. right. left.
  - intros Hpre.
    rewrite (each_field_throws pre empty_declaration post true TypeError Hpre);
      [| reflexivity].
    simpl. by rewrite app_nil_r.
Qed.

(** * Further properties *)

(** ** Lengths and classes of the strings of a regular expression *)

Section Measures.
Import RegExp.

Lemma lang_within p r s :
  within p r -> lang r s -> Forall (fun c => p c = true) s.
Proof.
  intros Hp H. induction H as [|q c Hq|r1 r2 u v _ IHu _ IHv|r1 r2 u _ IH
                               |r1 r2 u _ IH|r1|r1 u v _ IHu _ IHv]; simpl in Hp.
  - constructor.
  - repeat constructor. by apply Hp.
  - destruct Hp. apply Forall_app. split; auto.
  - destruct Hp. auto.
  - destruct Hp. auto.
  - constructor.
  - apply Forall_app. split; auto.
Qed.

Lemma lang_min_length r s :
  lang r s -> exists n, min_length r = Some n /\ n <= length s.
Proof.
  induction 1 as [|q c Hq|r1 r2 u v _ (m & Hm & ?) _ (n & Hn & ?)
                  |r1 r2 u _ (m & Hm & ?)|r1 r2 u _ (n & Hn & ?)
                  |r1|r1 u v _ _ _ _]; simpl.
  - by exists 0.
  - by exists 1.
  - rewrite Hm, Hn. exists (m + n). rewrite length_app. split; [done | lia].
  - rewrite Hm. destruct (min_length r2) as [n|]; eexists; split; [done | lia | done | lia].
  - rewrite Hn. destruct (min_length r1) as [m|]; eexists; split; [done | lia | done | lia].
  - exists 0. split; [done | lia].
  - exists 0. split; [done | lia].
Qed.

Lemma lang_max_length r s n :
  lang r s -> max_length r = Some n -> length s <= n.
Proof.
  intros H. revert n.
  induction H as [|q c Hq|r1 r2 u v _ IHu _ IHv|r1 r2 u _ IH
                  |r1 r2 u _ IH|r1|r1 u v _ _ _ _]; simpl; intros n Hn.
  - lia.
  - injection Hn as <-. simpl. lia.
  - destruct (max_length r1) as [a|], (max_length r2) as [b|]; try discriminate.
    injection Hn as <-. rewrite length_app.
    specialize (IHu a eq_refl). specialize (IHv b eq_refl). lia.
  - destruct (max_length r1) as [a|], (max_length r2) as [b|]; try discriminate.
    injection Hn as <-. specialize (IH a eq_refl). lia.
  - destruct (max_length r1) as [a|], (max_length r2) as [b|]; try discriminate.
    injection Hn as <-. specialize (IH b eq_refl). lia.
  - simpl. lia.
  - discriminate.
Qed.

Lemma lang_length_bounds r s m n :
  min_length r = Some m -> max_length r = Some n -> lang r s ->
  m <= length s <= n.
Proof.
  intros Hm Hn H. split.
  - destruct (lang_min_length _ _ H) as (k & Hk & ?). congruence.
  - by apply (lang_max_length r).
Qed.

Lemma within_Repeat p n r : within p r -> within p (Repeat n r).
Proof. intros H. induction n; simpl; auto. Qed.

Lemma within_AtMost p n r : within p r -> within p (AtMost n r).
Proof. intros H. induction n; simpl; auto. Qed.

Lemma within_Seq p rs : Forall (within p) rs -> within p (validator.Seq rs).
Proof. induction 1; simpl; auto. Qed.

Lemma within_Any p rs : Forall (within p) rs -> within p (validator.Any rs).
Proof. induction 1; simpl; auto. Qed.

(** The strings of [r{n}], [r{0,n}] and [r*] for a class [r]. *)
Lemma lang_Repeat_Class p s :
  Forall (fun c => p c = true) s -> lang (Repeat (length s) (Class p)) s.
Proof.
  induction 1 as [|c s Hc _ IH]; simpl; [constructor |].
  exact (lang_Cat _ _ [c] s (lang_Class p c Hc) IH).
Qed.

Lemma lang_Repeat_Class_n p n s :
  length s = n -> Forall (fun c => p c = true) s ->
  lang (Repeat n (Class p)) s.
Proof. intros <-. apply lang_Repeat_Class. Qed.

Lemma lang_AtMost_Class p n s :
  length s <= n -> Forall (fun c => p c = true) s -> lang (AtMost n (Class p)) s.
Proof.
  intros Hlen H. revert n Hlen.
  induction H as [|c s Hc _ IH]; intros [|n] Hlen; simpl in *; try lia.
  - constructor.
  - apply lang_Alt_r. constructor.
  - apply lang_Alt_l.
    exact (lang_Cat _ _ [c] s (lang_Class p c Hc) (IH n ltac:(lia))).
Qed.

Lemma lang_Star_Class p s :
  Forall (fun c => p c = true) s -> lang (Star (Class p)) s.
Proof.
  induction 1 as [|c s Hc _ IH]; [constructor |].
  exact (lang_Star_more _ [c] s (lang_Class p c Hc) IH).
Qed.

Lemma lang_Between_Class p m n s :
  m <= length s <= n -> Forall (fun c => p c = true) s ->
  lang (Between m n (Class p)) s.
Proof.
  intros Hlen H. rewrite <- (take_drop m s). apply lang_Cat.
  - replace m with (length (take m s)) at 1 by (rewrite length_take; lia).
    apply lang_Repeat_Class. by apply Forall_take.
  - apply lang_AtMost_Class; [rewrite length_drop; lia | by apply Forall_drop].
Qed.

End Measures.

(** ** [cvv] and [creditCard] *)

Section DigitClasses.
Import RegExp.

Lemma Chr_digit a : is_digit (ch a) = true -> within is_digit (Chr a).
Proof. intros H c Hc. apply N.eqb_eq in Hc. by subst. Qed.

Lemma range_digit lo hi :
  (48 <= ch lo)%N -> (ch hi <= 57)%N -> within is_digit (Class (in_range lo hi)).
Proof.
  intros Hlo Hhi c Hc. apply is_digit_range.
  unfold in_range in Hc. apply andb_true_iff in Hc as [?%N.leb_le ?%N.leb_le].
  lia.
Qed.

Lemma one_of_digit s :
  forallb is_digit (lit s) = true -> within is_digit (Class (one_of s)).
Proof.
  intros H c Hc. apply bool_decide_eq_true in Hc.
  rewrite forallb_forall in H. apply H. by apply list_elem_of_In.
Qed.

Lemma Word_digit s : forallb is_digit (lit s) = true -> within is_digit (Word s).
Proof.
  induction s as [|a s IH]; simpl; [done |].
  intros [Ha Hs]%andb_true_iff. split; [by apply Chr_digit | by apply IH].
Qed.

Lemma digit_digit : within is_digit digit.
Proof. by intros c Hc. Qed.

Lemma cvv_re_digits : within is_digit validator.cvv_re.
Proof.
  split; [apply within_Repeat | apply within_AtMost]; apply digit_digit.
Qed.

Lemma creditCard_re_digits : within is_digit validator.creditCard_re.
Proof.
  unfold validator.creditCard_re. cbv zeta.
  repeat first
    [ apply within_Any | apply within_Seq | apply within_Repeat
    | apply Forall_nil_2 | apply Forall_cons_2
    | apply digit_digit
    | apply Chr_digit; reflexivity
    | apply Word_digit; reflexivity
    | apply one_of_digit; reflexivity
    | apply range_digit; [by vm_compute | by vm_compute]
    | split; [| exact I]
    | split ].
Qed.

End DigitClasses.

Lemma cvv_accepted value :
  error (validator.cvv value) = false ->
  exists s, value = str s /\ (length s = 3 \/ length s = 4) /\
            Forall (fun c => is_digit c = true) s.
Proof.
  unfold validator.cvv.
  destruct (ToBoolean value) eqn:Htruthy; simpl; [| done].
  destruct value as [| |s]; try discriminate. simpl.
  rewrite negb_false_iff. unfold RegExp.test_anchored. rewrite matches_lang.
  intros H. exists s. split_and!; [done | |].
  - pose proof (lang_length_bounds validator.cvv_re s 3 4 eq_refl eq_refl H).
    lia.
  - exact (lang_within _ _ _ cvv_re_digits H).
Qed.

(** X1: [cvv] passes exactly the strings of three or four decimal digits;
    a falsy value is reported as "Empty value", any other failing value as
    "Invalid CVV". *)
Theorem cvv_passes_iff_three_or_four_digits value :
  (error (validator.cvv value) = false <->
   exists s, value = str s /\ (length s = 3 \/ length s = 4) /\
             Forall (fun c => is_digit c = true) s) /\
  (ToBoolean value = false ->
   validator.cvv value
   = {| error := true; message := str (lit "Empty value") |}) /\
  (ToBoolean value = true ->
   message (validator.cvv value) = str (lit "Invalid CVV")).
Proof.
  split_and!.
  - split; [apply cvv_accepted |].
    intros (s & -> & Hlen & Hdigits). unfold validator.cvv.
    assert (ToBoolean (str s) = true) as -> by (destruct s; simpl in *; [lia | done]).
    simpl. rewrite negb_false_iff. unfold RegExp.test_anchored.
    rewrite matches_lang. apply lang_Between_Class; [lia | done].
  - unfold validator.cvv. by intros ->.
  - unfold validator.cvv. by intros ->.
Qed.

(** The comparison with the literal never changes the result. *)
Lemma creditCard_error value :
  error (validator.creditCard value)
  = negb (ToBoolean value
          && RegExp.test_anchored validator.creditCard_re (ToString value)).
Proof.
  unfold validator.creditCard, validator.creditCard_with.
  destruct (ToBoolean value) eqn:Htruthy; simpl; [| done].
  destruct (RegExp.test_anchored _ _) eqn:Hre; simpl; [done |].
  destruct (loose_eq value _) eqn:Heq; simpl; [| done].
  destruct value as [| |s]; try discriminate.
  apply bool_decide_eq_true in Heq.
  change (s = lit "4567456745674567") in Heq. subst s.
  unfold ToString in Hre.
  by rewrite creditCard_literal_matches_pattern in Hre.
Qed.

(** X2: [creditCard] fails exactly when the value is falsy or the issuer
    pattern does not match it: the comparison with 4567456745674567 never
    changes the result, since the pattern matches that literal. A falsy
    value is reported as "Empty value", any other failing value as
    "Invalid credit card". *)
Theorem creditCard_fails_iff_falsy_or_no_issuer_pattern value :
  (error (validator.creditCard value) = true <->
   ToBoolean value = false \/
   RegExp.test_anchored validator.creditCard_re (ToString value) = false) /\
  (ToBoolean value = false ->
   validator.creditCard value
   = {| error := true; message := str (lit "Empty value") |}) /\
  (ToBoolean value = true ->
   message (validator.creditCard value) = str (lit "Invalid credit card")).
Proof.
  split_and!.
  - rewrite creditCard_error, negb_true_iff. apply andb_false_iff.
  - unfold validator.creditCard, validator.creditCard_with. by intros ->.
  - unfold validator.creditCard, validator.creditCard_with. by intros ->.
Qed.

Lemma creditCard_accepted value :
  error (validator.creditCard value) = false ->
  exists s, value = str s /\ 13 <= length s <= 16 /\
            Forall (fun c => is_digit c = true) s.
Proof.
  rewrite creditCard_error, negb_false_iff.
  intros [Htruthy Hre]%andb_true_iff.
  destruct value as [| |s]; try discriminate. exists s.
  apply matches_lang in Hre. unfold ToString in Hre. split; [done | split].
  - exact (lang_length_bounds validator.creditCard_re s 13 16
             eq_refl eq_refl Hre).
  - exact (lang_within _ _ _ creditCard_re_digits Hre).
Qed.

(** X3: what [creditCard] accepts is a string of 13 to 16 decimal digits. *)
Theorem creditCard_accepts_only_13_to_16_digits value :
  error (validator.creditCard value) = false ->
  exists s, value = str s /\ 13 <= length s <= 16 /\
            Forall (fun c => is_digit c = true) s.
Proof. apply creditCard_accepted. Qed.

Lemma creditCard_accepts_only_13_to_16_digits_witness :
  exists s, str (lit "30000000000004") = str s /\ 13 <= length s <= 16 /\
            Forall (fun c => is_digit c = true) s.
Proof.
  apply (creditCard_accepts_only_13_to_16_digits (str (lit "30000000000004"))).
  reflexivity.
Defined.

(** X4: [creditCard] accepts every string of 13 or of 16 decimal digits
    that starts with 4. *)
Theorem creditCard_accepts_visa_numbers s :
  length s = 12 \/ length s = 15 ->
  Forall (fun c => is_digit c = true) s ->
  error (validator.creditCard (str (ch "4" :: s))) = false.
Proof.
  intros Hlen Hdigits.
  rewrite creditCard_error, negb_false_iff. apply andb_true_iff.
  split; [done |].
  assert (RegExp.lang validator.creditCard_re (ch "4" :: s)) as H.
  { apply RegExp.lang_Alt_l.
    apply (RegExp.lang_Cat _ _ [ch "4"] s); [by constructor |].
    rewrite <- (take_drop 12 s). apply RegExp.lang_Cat.
    - apply lang_Repeat_Class_n; [rewrite length_take; lia |].
      by apply Forall_take.
    - rewrite <- (app_nil_r (drop 12 s)). apply RegExp.lang_Cat; [| constructor].
      destruct Hlen as [Hlen | Hlen].
      + rewrite drop_ge by lia. apply RegExp.lang_Alt_r. constructor.
      + apply RegExp.lang_Alt_l.
        apply lang_Repeat_Class_n; [rewrite length_drop; lia |].
        by apply Forall_drop. }
  by apply matches_lang in H.
Qed.

Lemma creditCard_accepts_visa_numbers_witness :
  error (validator.creditCard (str (lit "4567456745674567"))) = false.
Proof.
  apply (creditCard_accepts_visa_numbers (lit "567456745674567")).
  - right. reflexivity.
  - by repeat constructor.
Defined.

(** ** [email] *)

Section Email.
Import RegExp.

Lemma lang_Cat_eq r s u v w :
  w = u ++ v -> lang r u -> lang s v -> lang (Cat r s) w.
Proof. intros ->. apply lang_Cat. Qed.

Lemma lang_Class_inv p s : lang (Class p) s -> exists c, s = [c] /\ p c = true.
Proof. intros H. inversion H; subst. by eexists. Qed.

Lemma alnum_range c :
  is_alnum c = true -> (97 <= c <= 122)%N \/ (48 <= c <= 57)%N.
Proof.
  unfold is_alnum, in_range.
  intros [[?%N.leb_le ?%N.leb_le]%andb_true_iff
         | [?%N.leb_le ?%N.leb_le]%andb_true_iff]%orb_true_iff; auto.
Qed.

Lemma lower_range c : is_lower c = true -> (97 <= c <= 122)%N.
Proof.
  unfold is_lower, in_range. by intros [?%N.leb_le ?%N.leb_le]%andb_true_iff.
Qed.

(** Letters and digits are outside the set that the negated class of
    [email] excludes. *)
Lemma alnum_email_atom c : is_alnum c = true -> lang validator.email_atom [c].
Proof.
  intros H%alnum_range. apply lang_Class.
  rewrite negb_true_iff, !orb_false_iff. split_and!.
  - apply bool_decide_eq_false. change (lit "<>()[]\.,;:@")
      with [60; 62; 40; 41; 91; 93; 92; 46; 44; 59; 58; 64]%N.
    rewrite !elem_of_cons, elem_of_nil. lia.
  - apply N.eqb_neq. lia.
  - unfold is_str_white_space, is_white_space, is_line_terminator.
    rewrite !orb_false_iff, andb_false_iff, !N.leb_gt. split_and!.
    + apply bool_decide_eq_false. rewrite !elem_of_cons, elem_of_nil. lia.
    + lia.
    + apply bool_decide_eq_false. rewrite !elem_of_cons, elem_of_nil. lia.
Qed.

Lemma alnum_email_label c : is_alnum c = true -> lang validator.email_label [c].
Proof.
  intros H. apply lang_Class. unfold is_alnum in H.
  apply orb_true_iff in H as [-> | ->]; [done |]. by rewrite !orb_true_r.
Qed.

Lemma lower_email_alpha c : is_lower c = true -> lang validator.email_alpha [c].
Proof. intros H. apply lang_Class. unfold is_lower in H. by rewrite H. Qed.

(** Strings of one code unit each under [r*], [r+], [r{n}] and [r{n,}]. *)
Lemma lang_Star_units r s : Forall (fun c => lang r [c]) s -> lang (Star r) s.
Proof.
  induction 1 as [|c s Hc _ IH]; [constructor |].
  exact (lang_Star_more r [c] s Hc IH).
Qed.

Lemma lang_Plus_units r s :
  s <> [] -> Forall (fun c => lang r [c]) s -> lang (Plus r) s.
Proof.
  intros Hne H. destruct H as [|c s Hc Hs]; [done |].
  exact (lang_Cat r (Star r) [c] s Hc (lang_Star_units r s Hs)).
Qed.

Lemma lang_Repeat_units r n s :
  length s = n -> Forall (fun c => lang r [c]) s -> lang (Repeat n r) s.
Proof.
  intros <- H. induction H as [|c s Hc _ IH]; simpl; [constructor |].
  exact (lang_Cat _ _ [c] s Hc IH).
Qed.

Lemma lang_AtLeast_units r n s :
  n <= length s -> Forall (fun c => lang r [c]) s -> lang (AtLeast n r) s.
Proof.
  intros Hlen H. rewrite <- (take_drop n s). apply lang_Cat.
  - apply lang_Repeat_units; [rewrite length_take; lia | by apply Forall_take].
  - apply lang_Star_units. by apply Forall_drop.
Qed.

(** The shape of the literal of [email]: a local part, the at sign, a
    domain; their shortest strings have one and four code units, and every
    domain holds a dot. *)
Lemma email_re_shape :
  exists l d,
    validator.email_re = Cat l (Cat (Chr "@") (Cat d Empty)) /\
    min_length l = Some 1 /\ min_length d = Some 4 /\
    (forall s, lang d s -> ch "." ∈ s).
Proof.
  eexists _, _.
  split; [reflexivity | split; [reflexivity | split; [reflexivity |]]].
  intros s H. inversion H as [| | |? ? ? Hip|? ? ? Hhost| |]; subst.
  - apply lang_Cat_inv in Hip as (u1 & v1 & -> & _ & H1).
    apply lang_Cat_inv in H1 as (u2 & v2 & -> & _ & H2).
    apply lang_Cat_inv in H2 as (u3 & v3 & -> & H3 & _).
    apply lang_Class_inv in H3 as (c & -> & ->%N.eqb_eq).
    rewrite !elem_of_app. right. right. left. left.
  - apply lang_Cat_inv in Hhost as (u1 & v1 & -> & H1 & _).
    apply lang_Cat_inv in H1 as (u2 & v2 & -> & H2 & _).
    apply lang_Cat_inv in H2 as (u3 & v3 & -> & _ & H3).
    apply lang_Cat_inv in H3 as (u4 & v4 & -> & H4 & _).
    apply lang_Class_inv in H4 as (c & -> & ->%N.eqb_eq).
    rewrite !elem_of_app. left. left. right. left. left.
Qed.

End Email.

Lemma email_accepted value :
  error (validator.email value) = false ->
  exists local domain,
    value = str (local ++ ch "@" :: domain) /\
    1 <= length local /\ 4 <= length domain /\ ch "." ∈ domain.
Proof.
  unfold validator.email, RegExp.test_anchored. simpl error.
  rewrite negb_false_iff, matches_lang.
  destruct email_re_shape as (l & d & -> & Hl & Hd & Hdot).
  intros (local & rest & Heq & Hlocal & Hrest)%lang_Cat_inv.
  apply lang_Cat_inv in Hrest as (at_sign & rest' & -> & Hat & Hdomain).
  apply lang_Class_inv in Hat as (c & -> & ->%N.eqb_eq).
  apply lang_Cat_inv in Hdomain as (domain & e & -> & Hdomain & He).
  inversion He; subst. rewrite app_nil_r in Heq.
  pose proof (Hdot _ Hdomain) as Hin_dot.
  apply lang_min_length in Hlocal as (m & Hm & ?).
  apply lang_min_length in Hdomain as (n & Hn & ?).
  exists local, domain. split_and!; [| congruence | congruence | done].
  assert (ch "@" ∈ ToString value) as Hin.
  { rewrite Heq. apply elem_of_app. right. left. }
  destruct value as [| |s].
  - exfalso. revert Hin. by apply (proj1 (bool_decide_eq_false _)).
  - exfalso. revert Hin. by apply (proj1 (bool_decide_eq_false _)).
  - simpl in Heq. by rewrite Heq.
Qed.

(** X5: what [email] accepts is a string with an at sign that has at least
    one code unit before it and, after it, at least four code units with a
    dot among them; [undefined], [null] and the empty string are
    rejected. *)
Theorem email_accepts_only_addresses_with_at_sign value :
  error (validator.email value) = false ->
  exists local domain,
    value = str (local ++ ch "@" :: domain) /\
    1 <= length local /\ 4 <= length domain /\ ch "." ∈ domain.
Proof. apply email_accepted. Qed.

Lemma email_accepts_only_addresses_with_at_sign_witness :
  exists local domain,
    str (lit "a@b.co") = str (local ++ ch "@" :: domain) /\
    1 <= length local /\ 4 <= length domain /\ ch "." ∈ domain.
Proof.
  apply (email_accepts_only_addresses_with_at_sign (str (lit "a@b.co"))).
  reflexivity.
Defined.

(** X6: [email] accepts every address made of a non-empty local part of
    lower-case letters and digits, an at sign, a non-empty label of
    lower-case letters and digits, a dot, and two or more lower-case
    letters. *)
Theorem email_accepts_plain_addresses local label tld :
  local <> [] -> Forall (fun c => is_alnum c = true) local ->
  label <> [] -> Forall (fun c => is_alnum c = true) label ->
  2 <= length tld -> Forall (fun c => is_lower c = true) tld ->
  error (validator.email (str (local ++ ch "@" :: label ++ ch "." :: tld)))
  = false.
Proof.
  intros Hlocal Alocal Hlabel Alabel Htld Atld.
  unfold validator.email, RegExp.test_anchored. simpl error.
  rewrite negb_false_iff, matches_lang. simpl ToString.
  apply (lang_Cat_eq _ _ local (ch "@" :: label ++ ch "." :: tld)); [done | |].
  - apply RegExp.lang_Alt_l.
    apply (lang_Cat_eq _ _ local []); [by rewrite app_nil_r | |].
    + apply lang_Plus_units; [done |].
      eapply Forall_impl; [exact Alocal | apply alnum_email_atom].
    + exact (RegExp.lang_Cat _ _ [] [] (RegExp.lang_Star_nil _)
               RegExp.lang_Empty).
  - apply (lang_Cat_eq _ _ [ch "@"] (label ++ ch "." :: tld)); [done | |].
    { by apply RegExp.lang_Class. }
    apply (lang_Cat_eq _ _ (label ++ ch "." :: tld) []);
      [by rewrite app_nil_r | | constructor].
    apply RegExp.lang_Alt_r.
    apply (lang_Cat_eq _ _ (label ++ [ch "."]) tld);
      [by rewrite <- app_assoc | |].
    + apply (lang_Cat_eq _ _ (label ++ [ch "."]) []);
        [by rewrite app_nil_r | | constructor].
      apply (lang_Cat_eq _ _ label [ch "."]); [done | |].
      * apply lang_Plus_units; [done |].
        eapply Forall_impl; [exact Alabel | apply alnum_email_label].
      * apply (lang_Cat_eq _ _ [ch "."] []); [done | | constructor].
        by apply RegExp.lang_Class.
    + apply (lang_Cat_eq _ _ tld []); [by rewrite app_nil_r | | constructor].
      apply lang_AtLeast_units; [done |].
      eapply Forall_impl; [exact Atld | apply lower_email_alpha].
Qed.

Lemma email_accepts_plain_addresses_witness :
  error (validator.email (str (lit "a@b.co"))) = false.
Proof.
  apply (email_accepts_plain_addresses (lit "a") (lit "b") (lit "co"));
    first [ done | lia | by repeat constructor ].
Defined.

(** ** Results and error displays of the engine *)

(** The registry holds the six validators and nothing else. *)
Lemma registry_inv key rule :
  service_validator !! key = Some rule ->
  (key, rule) ∈ [ (lit "email", validator.email);
                  (lit "required", validator.required);
                  (lit "string", validator.string);
                  (lit "creditCard", validator.creditCard);
                  (lit "cvv", validator.cvv);
                  (lit "positive", validator.positive) ].
Proof. apply elem_of_list_to_map_2. Qed.

Ltac registry_cases H :=
  apply registry_inv in H;
  repeat (apply elem_of_cons in H as [H | H]; [injection H as -> -> |]);
  [.. | by apply elem_of_nil in H].

(** A list of concrete keys holds none of the five [throwing_keys]. *)
Ltac no_throwing_key := apply (bool_decide_unpack _); vm_compute; exact I.

(** A failing result carries one of the six message texts. *)
Lemma failing_message key rule value :
  service_validator !! key = Some rule ->
  error (rule value) = true ->
  exists msg, message (rule value) = str msg /\ msg ∈ messages.
Proof.
  intros H E. unfold messages. registry_cases H.
  - eexists. split; [reflexivity |]. rewrite !elem_of_cons. auto 10.
  - eexists. split; [reflexivity |]. rewrite !elem_of_cons. auto 10.
  - unfold validator.string in *. destruct (negb (ToBoolean value));
      (eexists; split; [reflexivity |]; rewrite !elem_of_cons; auto 10).
  - unfold validator.creditCard, validator.creditCard_with in *.
    destruct (negb (ToBoolean value));
      (eexists; split; [reflexivity |]; rewrite !elem_of_cons; auto 10).
  - unfold validator.cvv in *. destruct (negb (ToBoolean value));
      (eexists; split; [reflexivity |]; rewrite !elem_of_cons; auto 10).
  - rewrite positive_error in E. unfold validator.positive. rewrite E.
    eexists. split; [reflexivity |]. rewrite !elem_of_cons. auto 10.
Qed.

Lemma displayed_app t u : displayed (t ++ u) = displayed t ++ displayed u.
Proof. apply omap_app. Qed.

Lemma displayed_evaluations value keys :
  displayed (evaluations value keys) = [].
Proof. induction keys as [|key keys IH]; [reflexivity | exact IH]. Qed.

Lemma evaluations_keep_errors value keys :
  RemoveErrors ∉ evaluations value keys.
Proof.
  induction keys as [|key keys IH]; [apply not_elem_of_nil |].
  simpl. rewrite not_elem_of_cons. by split.
Qed.

(** The displays of the loop: when it returns false one, the last event,
    on the field itself; none when it returns true or throws. *)
Lemma loop_displayed f value rules :
  match outcome (validations_loop f value rules) with
  | Normal false =>
      exists t key rule,
        trace (validations_loop f value rules)
        = t ++ [DisplayError f (message (rule value))] /\
        displayed t = [] /\
        service_validator !! key = Some rule /\ error (rule value) = true
  | _ => displayed (trace (validations_loop f value rules)) = []
  end.
Proof.
  destruct (loop_shape f value rules) as [keys H].
  destruct (outcome (validations_loop f value rules)) as [[|]|e].
  - destruct H as [-> _]. apply displayed_evaluations.
  - destruct H as (key & rule & -> & _ & Hk & Hr).
    exists (evaluations value keys), key, rule.
    split_and!; [done | apply displayed_evaluations | done | done].
  - destruct H as (-> & _). apply displayed_evaluations.
Qed.

(** X7: a call of [validateField] displays an error exactly when it
    returns false: then it displays one, as its last effect, on the field
    it was called with, and the text is one of the six messages of the
    validators; when it returns true or throws it has displayed none. *)
Theorem validateField_displays_iff_it_fails f opt :
  match outcome (validateField f opt) with
  | Normal true => displayed (trace (validateField f opt)) = []
  | Normal false =>
      exists t msg,
        trace (validateField f opt) = t ++ [DisplayError f (str msg)] /\
        displayed t = [] /\ msg ∈ messages
  | Throw _ => displayed (trace (validateField f opt)) = []
  end.
Proof.
  unfold validateField. destruct (resolve_validations f opt) as [rules|];
    [| reflexivity].
  pose proof (loop_displayed f (effective_value f) rules) as H.
  destruct (outcome (validations_loop f (effective_value f) rules))
    as [[|]|e]; [exact H | | exact H].
  destruct H as (t & key & rule & -> & Ht & Hk & Hr).
  destruct (failing_message _ _ _ Hk Hr) as (msg & -> & Hmsg).
  by exists t, msg.
Qed.

(** X8: when no key of the rule list is one of the five [throwing_keys],
    the call returns, and the boolean it returns says whether every
    registered rule of the list passes on the effective value; so among
    such lists the result does not depend on the order of the rules, on
    their repetition or on the unregistered keys among them. *)
Theorem validateField_result_is_conjunction f opt rules :
  resolve_validations f opt = Some rules ->
  Forall (fun key => key ∉ throwing_keys) rules ->
  outcome (validateField f opt)
  = Normal (forallb (rule_passes (effective_value f)) rules) /\
  (forall opt' rules',
     resolve_validations f opt' = Some rules' ->
     Forall (fun key => key ∉ throwing_keys) rules' ->
     (forall key, key ∈ registered rules <-> key ∈ registered rules') ->
     outcome (validateField f opt') = outcome (validateField f opt)).
Proof.
  intros Hres Hrules.
  rewrite (validateField_resolved _ _ _ Hres), (loop_outcome _ _ _ Hrules).
  split; [done |].
  intros opt' rules' Hres' Hrules' Hsame.
  rewrite (validateField_resolved _ _ _ Hres'), (loop_outcome _ _ _ Hrules').
  f_equal.
  assert (forall l, forallb (rule_passes (effective_value f)) l
                    = forallb (rule_passes (effective_value f)) (registered l))
    as Hreg.
  { induction l as [|key l IH]; [reflexivity |]. simpl forallb.
    destruct (service_validator !! key) as [rule|] eqn:H.
    - rewrite (registered_present _ _ _ H). simpl. by rewrite IH.
    - rewrite (registered_absent _ _ H), IH. unfold rule_passes at 1.
      by rewrite H. }
  rewrite (Hreg rules), (Hreg rules').
  apply eq_true_iff_eq. rewrite !forallb_forall.
  split; intros H key Hin%list_elem_of_In; apply H, list_elem_of_In, Hsame, Hin.
Qed.

Lemma validateField_result_is_conjunction_witness :
  outcome (validateField empty_required_email
             (str (lit "email,nope,toString,required")))
  = outcome (validateField empty_required_email undefined).
Proof.
  symmetry.
  apply (proj2 (validateField_result_is_conjunction empty_required_email
                  (str (lit "email,nope,toString,required"))
                  [lit "email"; lit "nope"; lit "toString"; lit "required"]
                  eq_refl ltac:(no_throwing_key))
           undefined [lit "required"; lit "email"] eq_refl
           ltac:(no_throwing_key)).
  intros key.
  change (registered [lit "email"; lit "nope"; lit "toString"; lit "required"])
    with [lit "email"; lit "required"].
  change (registered [lit "required"; lit "email"])
    with [lit "required"; lit "email"].
  rewrite !elem_of_cons, !elem_of_nil. tauto.
Defined.

(** On the empty string every validator but [positive] fails. *)
Lemma rule_on_empty key rule :
  service_validator !! key = Some rule ->
  error (rule (str (lit ""))) = bool_decide (key <> lit "positive").
Proof. intros H. registry_cases H; by vm_compute. Qed.

(** X9: when no key of its rule list is one of the five [throwing_keys],
    a field that shows its placeholder fails exactly when the list holds a
    registered key other than "positive". *)
Theorem placeholder_field_fails_unless_only_positive f opt rules :
  val f = attr_placeholder f ->
  resolve_validations f opt = Some rules ->
  Forall (fun key => key ∉ throwing_keys) rules ->
  (outcome (validateField f opt) = Normal false <->
   exists key,
     key ∈ rules /\ is_Some (service_validator !! key) /\
     key <> lit "positive").
Proof.
  intros Hval Hres Hrules.
  rewrite (validateField_resolved _ _ _ Hres), (loop_outcome _ _ _ Hrules).
  rewrite (effective_value_placeholder f Hval). clear Hres Hrules.
  assert (forall key,
            rule_passes (str (lit "")) key = false <->
            is_Some (service_validator !! key) /\ key <> lit "positive")
    as Hrule.
  { intros key. unfold rule_passes.
    destruct (service_validator !! key) as [rule|] eqn:H.
    - rewrite (rule_on_empty _ _ H), negb_false_iff, bool_decide_eq_true.
      split; [by split; [eexists |] | by intros [_ ?]].
    - split; [done | by intros [[? [=]] _]]. }
  induction rules as [|key rest IH]; cbn [forallb].
  - split; [done | by intros (? & ?%elem_of_nil & _)].
  - destruct (rule_passes (str (lit "")) key) eqn:Hkey; cbn [andb].
    + rewrite IH. split.
      * intros (k & Hin & Hk). exists k. split; [by right | done].
      * intros (k & [-> | Hin]%elem_of_cons & Hk).
        -- apply Hrule in Hk. congruence.
        -- by exists k.
    + split; [| done]. intros _. exists key. split; [left | by apply Hrule].
Qed.

Lemma placeholder_field_fails_unless_only_positive_witness :
  outcome (validateField placeholder_shown
             (str (lit "positive,valueOf,nope,cvv")))
  = Normal false.
Proof.
  apply (placeholder_field_fails_unless_only_positive placeholder_shown
           (str (lit "positive,valueOf,nope,cvv"))
           [lit "positive"; lit "valueOf"; lit "nope"; lit "cvv"]
           eq_refl eq_refl ltac:(no_throwing_key)).
  exists (lit "cvv"). split_and!; [| by eexists | done].
  right. right. right. left.
Defined.

(** ** The displays of [validate] and of the submit binding *)

(** The fields that a call displays an error on: none when it returns
    true, the field itself when it returns false. *)
Lemma validateField_displayed_field f opt b :
  outcome (validateField f opt) = Normal b ->
  (displayed (trace (validateField f opt))).*1 = if b then [] else [f].
Proof.
  unfold validateField. destruct (resolve_validations f opt) as [rules|];
    [| discriminate].
  intros Hout.
  pose proof (loop_displayed f (effective_value f) rules) as H.
  rewrite Hout in H. destruct b; [by rewrite H |].
  destruct H as (t & key & rule & -> & Ht & _).
  by rewrite displayed_app, Ht.
Qed.

(** The rule loop never removes the displayed errors. *)
Lemma validateField_keeps_errors f opt :
  RemoveErrors ∉ trace (validateField f opt).
Proof.
  unfold validateField. destruct (resolve_validations f opt) as [rules|];
    [| apply not_elem_of_nil].
  destruct (loop_shape f (effective_value f) rules) as [keys H].
  destruct (outcome (validations_loop f (effective_value f) rules))
    as [[|]|e].
  - destruct H as [-> _]. apply evaluations_keep_errors.
  - destruct H as (key & rule & -> & _).
    rewrite not_elem_of_app, list_elem_of_singleton.
    split; [apply evaluations_keep_errors | done].
  - destruct H as (-> & _). apply evaluations_keep_errors.
Qed.

Section Displays.

Variable jQuery : jsstring -> list field.

Lemma fields_displayed fields :
  Forall (fun f => exists b, field_result f = Normal b) fields ->
  (displayed
     (concat (map (fun f => trace (validateField f undefined)) fields))).*1
  = filter (fun f => field_passes f = false) fields.
Proof.
  induction 1 as [|f rest [b Hb] _ IH]; [reflexivity |].
  simpl. rewrite displayed_app, fmap_app, IH.
  rewrite (validateField_displayed_field f undefined b Hb).
  assert (field_passes f = b) as Hf.
  { unfold field_passes. rewrite Hb. by destruct b. }
  destruct b.
  - by rewrite filter_cons_False by (rewrite Hf; discriminate).
  - by rewrite filter_cons_True by done.
Qed.

Lemma fields_keep_errors fields :
  RemoveErrors
  ∉ concat (map (fun f => trace (validateField f undefined)) fields).
Proof.
  induction fields as [|f rest IH]; [apply not_elem_of_nil |].
  simpl. rewrite not_elem_of_app. split; [apply validateField_keeps_errors | done].
Qed.

Lemma well_declared_fields_return fields :
  Forall well_declared fields ->
  Forall (fun f => exists b, field_result f = Normal b) fields.
Proof.
  intros H. eapply Forall_impl; [exact H |]. apply well_declared_returns.
Qed.

(** X10: on a field set in which the [el.data("validate")] of every field
    is a non-empty string that holds none of the five [throwing_keys],
    [validate] displays an error on exactly the fields that fail, one each,
    in the order of the set; it removes the errors displayed before exactly
    when [removeOldErrors] is set, and then as its first effect. *)
Theorem validate_displays_on_the_failing_fields containerId removeOldErrors :
  Forall well_declared (jQuery (selector containerId)) ->
  (displayed (trace (validate jQuery containerId removeOldErrors))).*1
  = filter (fun f => field_passes f = false) (jQuery (selector containerId)) /\
  (RemoveErrors ∈ trace (validate jQuery containerId removeOldErrors) <->
   removeOldErrors = true) /\
  (removeOldErrors = true ->
   head (trace (validate jQuery containerId removeOldErrors))
   = Some RemoveErrors).
Proof.
  intros Hdecl. pose proof (well_declared_fields_return _ Hdecl) as Hret.
  rewrite validate_unfold, (each_field_exhaustive _ _ Hret). simpl trace.
  split_and!.
  - rewrite displayed_app, fmap_app, (fields_displayed _ Hret).
    by destruct removeOldErrors.
  - rewrite elem_of_app. split.
    + intros [Hin | Hin]; [by destruct removeOldErrors; [| apply elem_of_nil in Hin] |].
      by apply fields_keep_errors in Hin.
    + intros ->. left. left.
  - by intros ->.
Qed.

End Displays.

Lemma declared_document_well_declared sel :
  Forall well_declared (declared_document sel).
Proof. repeat constructor; no_throwing_key. Defined.

Lemma validate_displays_on_the_failing_fields_witness :
  (displayed (trace (validate declared_document undefined true))).*1
  = [empty_required_email; placeholder_shown].
Proof.
  rewrite (proj1 (validate_displays_on_the_failing_fields declared_document
                    undefined true (declared_document_well_declared _))).
  reflexivity.
Defined.

Section SubmitBinding.

Variable jQuery : jsstring -> list field.

Lemma submitter_click_unfold id :
  submitter_click jQuery id
  = Comp (trace (validate jQuery (str id) false))
         match outcome (validate jQuery (str id) false) with
         | Normal ok => Normal (negb ok)
         | Throw e => Throw e
         end.
Proof.
  unfold submitter_click.
  destruct (outcome (validate jQuery (str id) false)) as [ok|e] eqn:H.
  - rewrite (bind_normal _ ok _ H). destruct ok; simpl; by rewrite app_nil_r.
  - by rewrite (bind_throw _ e _ H).
Qed.

Lemma each_field_keeps_errors fields passed :
  RemoveErrors ∉ trace (each_field fields passed).
Proof.
  revert passed. induction fields as [|f rest IH]; intros passed;
    [apply not_elem_of_nil |].
  simpl. destruct (outcome (validateField f undefined)) as [b|e] eqn:H.
  - rewrite (bind_normal _ b _ H). cbn [trace]. rewrite not_elem_of_app.
    split; [apply validateField_keeps_errors | apply IH].
  - rewrite (bind_throw _ e _ H). apply validateField_keeps_errors.
Qed.

(** X11: the click handler of a [data-submitter] element validates the
    fields that [#id:visible [data-validate]:visible] selects and never
    removes the errors displayed before. When the [el.data("validate")] of
    every selected field is a non-empty string that holds none of the five
    [throwing_keys], it calls [preventDefault] exactly when some field
    fails, and displays an error on each failing field. When the call on a
    selected field throws, as on a field without rules or on one that
    declares [__proto__], the [TypeError] leaves the handler and
    [preventDefault] is not called. *)
Theorem submitter_click_prevents_default_iff_a_field_fails id :
  let fields := jQuery (lit "#" ++ id ++ lit ":visible [data-validate]:visible") in
  (RemoveErrors ∉ trace (submitter_click jQuery id)) /\
  (Forall well_declared fields ->
   outcome (submitter_click jQuery id)
   = Normal (negb (forallb field_passes fields)) /\
   (displayed (trace (submitter_click jQuery id))).*1
   = filter (fun f => field_passes f = false) fields) /\
  (forall f,
     f ∈ fields ->
     field_result f = Throw TypeError ->
     outcome (submitter_click jQuery id) = Throw TypeError) /\
  (forall f,
     ToBoolean (data_validate f) = false \/
     (exists post,
        ToBoolean (data_validate f) = true /\
        split (ch ",") (ToString (data_validate f))
        = lit "__proto__" :: post) ->
     field_result f = Throw TypeError).
Proof.
  intros fields. rewrite submitter_click_unfold, validate_unfold.
  change (jQuery (selector (str id))) with fields. cbn [trace outcome app].
  split_and!.
  - apply each_field_keeps_errors.
  - intros Hdecl. pose proof (well_declared_fields_return _ Hdecl) as Hret.
    rewrite (each_field_exhaustive _ _ Hret). cbn [trace outcome andb].
    split; [done | by apply fields_displayed].
  - intros f Hin Hf. by rewrite (each_field_throws_at _ _ _ Hin Hf).
  - intros f [Hf | (post & Hf & Hsplit)]; unfold field_result.
    + unfold validateField, resolve_validations. simpl. by rewrite Hf.
    + rewrite (validateField_resolved _ _ _ (declared_resolves f Hf)), Hsplit.
      by rewrite (loop_inherited _ _ _ _ _ lookup_proto).
Qed.

End SubmitBinding.

(** ** How the rules relate *)

Lemma required_accepts_non_empty c s :
  error (validator.required (str (c :: s))) = false.
Proof. reflexivity. Qed.

Lemma string_accepted value :
  error (validator.string value) = false ->
  exists c s, value = str (c :: s) /\ existsb is_digit (c :: s) = false.
Proof.
  unfold validator.string.
  destruct value as [| |[|c s]]; try discriminate. simpl negb. cbv iota.
  cbn [error ToString]. unfold RegExp.digit. rewrite test_search_Class.
  intros H. by exists c, s.
Qed.

(** X12: a value that [email], [string], [creditCard] or [cvv] accepts is
    accepted by [required]; so putting "required" before one of these keys
    changes the message of an empty field, never the result of the call. *)
Theorem required_is_implied_by_the_format_rules :
  (forall value,
     error (validator.email value) = false \/
     error (validator.string value) = false \/
     error (validator.creditCard value) = false \/
     error (validator.cvv value) = false ->
     error (validator.required value) = false) /\
  (forall f opt opt' key,
     key ∈ [lit "email"; lit "string"; lit "creditCard"; lit "cvv"] ->
     resolve_validations f opt = Some [lit "required"; key] ->
     resolve_validations f opt' = Some [key] ->
     outcome (validateField f opt) = outcome (validateField f opt')).
Proof.
  assert (forall value,
     error (validator.email value) = false \/
     error (validator.string value) = false \/
     error (validator.creditCard value) = false \/
     error (validator.cvv value) = false ->
     error (validator.required value) = false) as Himplied.
  { intros value [H | [H | [H | H]]].
    - apply email_accepted in H as ([|c local] & domain & -> & Hlen & _);
        [simpl in Hlen; lia | apply required_accepts_non_empty].
    - apply string_accepted in H as (c & s & -> & _).
      apply required_accepts_non_empty.
    - apply creditCard_accepted in H as ([|c s] & -> & Hlen & _);
        [simpl in Hlen; lia | apply required_accepts_non_empty].
    - apply cvv_accepted in H as ([|c s] & -> & Hlen & _);
        [simpl in Hlen; lia | apply required_accepts_non_empty]. }
  split; [exact Himplied |].
  intros f opt opt' key Hkey Hres Hres'.
  rewrite (validateField_resolved _ _ _ Hres), (validateField_resolved _ _ _ Hres').
  assert (Forall (fun key => key ∉ throwing_keys) [key]) as Hk.
  { rewrite !elem_of_cons, elem_of_nil in Hkey.
    destruct Hkey as [-> | [-> | [-> | [-> | []]]]]; no_throwing_key. }
  assert (Forall (fun key => key ∉ throwing_keys) [lit "required"; key])
    as Hrk.
  { constructor; [| exact Hk]. no_throwing_key. }
  rewrite (loop_outcome _ _ _ Hk), (loop_outcome _ _ _ Hrk).
  f_equal. cbn [forallb]. rewrite andb_true_r.
  destruct (rule_passes (effective_value f) key) eqn:Hpass;
    [| by rewrite andb_false_r].
  rewrite andb_true_r. unfold rule_passes. rewrite lookup_required.
  rewrite negb_true_iff. apply Himplied.
  unfold rule_passes in Hpass.
  rewrite !elem_of_cons, elem_of_nil in Hkey.
  destruct Hkey as [-> | [-> | [-> | [-> | []]]]];
    apply negb_true_iff in Hpass; auto.
Qed.

(** X13: a value that [string] accepts holds no digit, so [cvv] and
    [creditCard] reject it: a call whose rule list holds "string" and one
    of "cvv" and "creditCard" never returns true; it returns false when no
    key of the list is one of the five [throwing_keys], and it can throw
    otherwise. *)
Theorem string_excludes_the_digit_rules :
  (forall value,
     error (validator.string value) = false ->
     error (validator.cvv value) = true /\
     error (validator.creditCard value) = true) /\
  (forall f opt rules,
     resolve_validations f opt = Some rules ->
     lit "string" ∈ rules ->
     lit "cvv" ∈ rules \/ lit "creditCard" ∈ rules ->
     outcome (validateField f opt) <> Normal true /\
     (Forall (fun key => key ∉ throwing_keys) rules ->
      outcome (validateField f opt) = Normal false)) /\
  (forall f,
     outcome (validateField f (str (lit "__proto__,string,cvv")))
     = Throw TypeError).
Proof.
  assert (forall value,
     error (validator.string value) = false ->
     error (validator.cvv value) = true /\
     error (validator.creditCard value) = true) as Hexcl.
  { intros value (c & s & -> & Hnone)%string_accepted.
    assert (forall t, Forall (fun c => is_digit c = true) t -> 1 <= length t ->
                      str (c :: s) = str t -> False) as Hno.
    { intros t Ht Hlen [= <-]. inversion Ht as [|? ? Hc Hs]; subst.
      simpl in Hnone. by rewrite Hc in Hnone. }
    split.
    - destruct (error (validator.cvv _)) eqn:E; [done |].
      apply cvv_accepted in E as (t & Heq & Hlen & Ht).
      exfalso. apply (Hno t Ht); [lia | done].
    - destruct (error (validator.creditCard _)) eqn:E; [done |].
      apply creditCard_accepted in E as (t & Heq & Hlen & Ht).
      exfalso. apply (Hno t Ht); [lia | done]. }
  split_and!; [exact Hexcl | | done].
  intros f opt rules Hres Hstring Hdigits.
  rewrite (validateField_resolved _ _ _ Hres).
  assert (forallb (rule_passes (effective_value f)) rules = false) as Hall.
  { apply not_true_is_false. intros Hall.
    rewrite forallb_forall in Hall.
    assert (forall key rule,
              key ∈ rules -> service_validator !! key = Some rule ->
              error (rule (effective_value f)) = false) as Hpass.
    { intros key rule Hin Hrule. apply list_elem_of_In, Hall in Hin.
      unfold rule_passes in Hin. rewrite Hrule in Hin.
      by apply negb_true_iff in Hin. }
    destruct (Hexcl _ (Hpass _ validator.string Hstring eq_refl))
      as [Hcvv Hcard].
    destruct Hdigits as [Hin | Hin].
    - pose proof (Hpass _ validator.cvv Hin eq_refl). congruence.
    - pose proof (Hpass _ validator.creditCard Hin eq_refl). congruence. }
  split.
  - intros Htrue%loop_true. congruence.
  - intros Hrules. by rewrite (loop_outcome _ _ _ Hrules), Hall.
Qed.

(** ** [positive] on integer literals *)

Section Integers.
Import Number.

Lemma digit_not_white_space c :
  is_digit c = true -> is_str_white_space c = false.
Proof.
  intros H%is_digit_range.
  unfold is_str_white_space, is_white_space, is_line_terminator.
  rewrite !orb_false_iff, andb_false_iff, !N.leb_gt. split_and!.
  - apply bool_decide_eq_false. rewrite !elem_of_cons, elem_of_nil. lia.
  - lia.
  - apply bool_decide_eq_false. rewrite !elem_of_cons, elem_of_nil. lia.
Qed.

Lemma strip_leading_id s :
  Forall (fun c => is_str_white_space c = false) s -> strip_leading s = s.
Proof. intros H. destruct H as [|c s Hc _]; simpl; [done | by rewrite Hc]. Qed.

(** Nothing is trimmed from a string without white space. *)
Lemma trim_id s :
  Forall (fun c => is_str_white_space c = false) s -> trim s = s.
Proof.
  intros H. unfold trim. rewrite (strip_leading_id s H).
  rewrite strip_leading_id by (by apply Forall_rev).
  apply rev_involutive.
Qed.

Lemma span_digits_all ds :
  Forall (fun c => is_digit c = true) ds -> span_digits ds = (ds, []).
Proof. induction 1 as [|c ds Hc _ IH]; simpl; [done | by rewrite Hc, IH]. Qed.

(** A string that does not start with [0x], [0o] or [0b] (in either case)
    is read as a signed decimal literal. *)
Lemma StrNumericLiteral_decimal s :
  (forall c rest, s = 48%N :: c :: rest -> is_digit c = true) ->
  StrNumericLiteral s
  = let '(negative, s') := sign s in StrUnsignedDecimalLiteral negative s'.
Proof.
  intros H. destruct s as [|a [|c rest]].
  - reflexivity.
  - destruct a as [|p]; [reflexivity |].
    do 6 (destruct p as [p|p|]; try reflexivity).
  - destruct (N.eq_dec a 48) as [-> | Hne].
    + specialize (H c rest eq_refl). apply is_digit_range in H.
      unfold StrNumericLiteral.
      assert (forall k, (k < 48 \/ 57 < k)%N -> (c =? k)%N = false) as Hk.
      { intros k Hk. apply N.eqb_neq. lia. }
      rewrite !Hk by (vm_compute; (left; reflexivity) || (right; reflexivity)).
      reflexivity.
    + destruct a as [|p]; [reflexivity |].
      do 6 (destruct p as [p|p|]; try reflexivity). done.
Qed.

Lemma sign_digit c s : is_digit c = true -> sign (c :: s) = (false, c :: s).
Proof.
  intros H%is_digit_range. unfold sign.
  assert ((c =? ch "-")%N = false) as -> by (apply N.eqb_neq; vm_compute (ch _); lia).
  assert ((c =? ch "+")%N = false) as -> by (apply N.eqb_neq; vm_compute (ch _); lia).
  reflexivity.
Qed.

(** A non-empty string of decimal digits, as an unsigned decimal literal,
    is its value. *)
Lemma StrUnsignedDecimalLiteral_digits negative ds :
  ds <> [] -> Forall (fun c => is_digit c = true) ds ->
  StrUnsignedDecimalLiteral negative ds
  = round_binary64 negative (Z.of_N (decimal_value ds)) 1.
Proof.
  intros Hne H. unfold StrUnsignedDecimalLiteral.
  assert (bool_decide (ds = lit "Infinity") = false) as ->.
  { apply bool_decide_eq_false. intros ->. by inversion H. }
  rewrite (span_digits_all ds H), app_nil_r.
  destruct ds as [|c ds]; [done |]. cbn [ExponentPart length].
  unfold of_decimal. simpl Z.leb. cbv iota.
  f_equal. change (10 ^ (0 - Z.of_nat 0))%Z with 1%Z. lia.
Qed.

Lemma round_binary64_not_NaN negative p q :
  isNaN (round_binary64 negative p q) = false.
Proof.
  unfold round_binary64. destruct (p =? 0)%Z; [done |].
  destruct (scale p q _) as [n0 d0]. destruct (scale p q _) as [n d].
  destruct (_ || _); destruct (_ =? 2 ^ 53)%Z; destruct (_ =? 0)%Z;
    try done; by destruct (971 <? _)%Z.
Qed.

Lemma round_binary64_unsigned p q :
  lt_zero (round_binary64 false p q) = false.
Proof.
  unfold round_binary64. destruct (p =? 0)%Z; [done |].
  destruct (scale p q _) as [n0 d0]. destruct (scale p q _) as [n d].
  destruct (_ || _); destruct (_ =? 2 ^ 53)%Z; destruct (_ =? 0)%Z;
    try done; by destruct (971 <? _)%Z.
Qed.

(** At an exponent that does not exceed the binary logarithm of [p], the
    scaled quotient of a positive integer [p] is at least one. *)
Lemma scale_quotient_pos p e :
  (0 < p)%Z -> (e <= Z.log2 p)%Z ->
  (1 <= fst (scale p 1 e) / snd (scale p 1 e))%Z.
Proof.
  intros Hp He. unfold scale. destruct (0 <=? e)%Z eqn:Hsign; simpl.
  - apply Z.leb_le in Hsign. rewrite Z.mul_1_l.
    apply Z.div_le_lower_bound; [by apply Z.pow_pos_nonneg |].
    rewrite Z.mul_1_r. transitivity (2 ^ Z.log2 p)%Z.
    + by apply Z.pow_le_mono_r.
    + by apply Z.log2_spec.
  - apply Z.leb_gt in Hsign. rewrite Z.div_1_r.
    assert (0 < 2 ^ (- e))%Z by (apply Z.pow_pos_nonneg; lia). nia.
Qed.

(** A negative integer other than zero converts to a number below zero. *)
Lemma round_binary64_negative_integer p :
  (0 < p)%Z -> lt_zero (round_binary64 true p 1) = true.
Proof.
  intros Hp. unfold round_binary64.
  assert ((p =? 0)%Z = false) as -> by (apply Z.eqb_neq; lia).
  change (Z.log2 1) with 0%Z. rewrite Z.sub_0_r.
  destruct (scale p 1 (Z.log2 p - 53)) as [n0 d0].
  set (e1 := if (2 ^ 53 <=? n0 / d0)%Z then (Z.log2 p - 53 + 1)%Z
             else (Z.log2 p - 53)%Z).
  assert (Z.max e1 (-1074) <= Z.log2 p)%Z as He.
  { pose proof (Z.log2_nonneg p). subst e1.
    destruct (2 ^ 53 <=? n0 / d0)%Z; lia. }
  pose proof (scale_quotient_pos p _ Hp He) as Hq.
  destruct (scale p 1 (Z.max e1 (-1074))) as [n d]. simpl in Hq.
  set (m := if (d <? 2 * (n mod d))%Z || (d =? 2 * (n mod d))%Z && Z.odd (n / d)
            then (n / d + 1)%Z else (n / d)%Z).
  assert (1 <= m)%Z as Hm by (subst m; destruct (_ || _); lia).
  destruct (m =? 2 ^ 53)%Z eqn:Hbig.
  - simpl. by destruct (971 <? _)%Z.
  - assert ((m =? 0)%Z = false) as -> by (apply Z.eqb_neq; lia).
    destruct (971 <? _)%Z; [done |]. simpl. apply N.ltb_lt. lia.
Qed.

(** The value of a string of digits is zero exactly when all are 0. *)
Lemma decimal_value_zero ds :
  Forall (fun c => is_digit c = true) ds ->
  decimal_value ds = 0%N <-> Forall (fun c => c = ch "0") ds.
Proof.
  unfold decimal_value. intros H.
  assert (forall acc,
            fold_left (fun acc c => acc * 10 + (c - ch "0"))%N ds acc = 0%N <->
            acc = 0%N /\ Forall (fun c => c = ch "0") ds) as Hgen.
  { induction H as [|c ds Hc%is_digit_range _ IH]; intros acc; simpl.
    - split; [by split | by intros [? _]].
    - rewrite IH, Forall_cons. change (ch "0") with 48%N. split.
      + intros [Hacc Hds]. split_and!; [lia | lia | done].
      + intros (-> & -> & Hds). by split. }
  rewrite Hgen. split; [by intros [_ ?] | by split].
Qed.

End Integers.

(** X14: on a non-empty string of decimal digits, alone or after a plus
    sign, [positive] passes; after a minus sign it fails exactly when some
    digit is not 0. *)
Theorem positive_on_integer_literals ds :
  ds <> [] -> Forall (fun c => is_digit c = true) ds ->
  error (validator.positive (str ds)) = false /\
  error (validator.positive (str (ch "+" :: ds))) = false /\
  (error (validator.positive (str (ch "-" :: ds))) = true <->
   Exists (fun c => c <> ch "0") ds).
Proof.
  intros Hne Hds.
  assert (Forall (fun c => is_str_white_space c = false) ds) as Hws.
  { eapply Forall_impl; [exact Hds | apply digit_not_white_space]. }
  assert (forall c rest, ds = 48%N :: c :: rest -> is_digit c = true) as Hzero.
  { intros c rest ->. inversion Hds as [|? ? _ Hrest]; subst.
    by inversion Hrest. }
  assert (forall signed negative,
            Forall (fun c => is_str_white_space c = false) signed ->
            signed <> [] ->
            (forall c rest, signed = 48%N :: c :: rest -> is_digit c = true) ->
            Number.sign signed = (negative, ds) ->
            Number.ToNumber (str signed)
            = Number.round_binary64 negative
                (Z.of_N (Number.decimal_value ds)) 1) as Hnum.
  { intros signed negative Hsws Hsne Hshape Hsign.
    unfold Number.ToNumber, Number.StringToNumber. rewrite (trim_id _ Hsws).
    destruct signed as [|c signed]; [done |].
    rewrite (StrNumericLiteral_decimal _ Hshape), Hsign.
    by apply StrUnsignedDecimalLiteral_digits. }
  split_and!.
  - rewrite positive_error, (Hnum ds false Hws Hne Hzero).
    + by rewrite round_binary64_not_NaN, round_binary64_unsigned.
    + destruct Hds as [|c ds Hc _]; [done | by apply sign_digit].
  - rewrite positive_error, (Hnum (ch "+" :: ds) false).
    + by rewrite round_binary64_not_NaN, round_binary64_unsigned.
    + by constructor.
    + done.
    + by intros c rest [=].
    + reflexivity.
  - rewrite positive_error, (Hnum (ch "-" :: ds) true);
      [| by constructor | done | by intros c rest [=] | reflexivity].
    rewrite round_binary64_not_NaN. simpl orb.
    pose proof (decimal_value_zero ds Hds) as Hvalue.
    destruct (Number.decimal_value ds) as [|n] eqn:Hn.
    + split; [done |]. intros (c & Hin & Hc)%Exists_exists.
      pose proof (proj1 Hvalue eq_refl) as Hall.
      rewrite Forall_forall in Hall. exfalso. by apply Hc, Hall.
    + split; [| intros _; apply round_binary64_negative_integer; lia].
      intros _. apply not_Forall_Exists; [intros c; apply _ |].
      intros Hall. by apply Hvalue in Hall.
Qed.

Lemma positive_on_integer_literals_witness :
  error (validator.positive (str (lit "007"))) = false /\
  error (validator.positive (str (lit "+007"))) = false /\
  (error (validator.positive (str (lit "-007"))) = true <->
   Exists (fun c => c <> ch "0") (lit "007")).
Proof.
  apply (positive_on_integer_literals (lit "007")); [done |].
  by repeat constructor.
Defined.
